(** * Similarity scoring of colpali_engine/utils/processing_utils.py

    A shallow embedding of [BaseVisualRetrieverProcessor]'s static scoring
    methods ([score_single_vector], [score_multi_vector], [get_topk_plaid],
    [create_plaid_index]) and of the module's optional import of
    [fast_plaid].

    Modelling choices.
    - Scalars are exact numbers ([Z]): rounding of floating-point arithmetic
      is not modelled, the element type of a tensor is kept as a tag.
    - A tensor is its [shape], the [device] it lives on, its [dtype] tag and
      its entries as nested lists.
    - The tensors handed to one call share their last dimension [D], their
      device and their element type; what torch does with other inputs
      (broadcasting, type promotion, RuntimeError) is outside the model.
    - Python exceptions are values of [PyError]; a call returns [Ok v] or
      [Err e]. *)

From Stdlib Require Import String.
From Stdlib Require Import ZArith List Lia Bool Arith.
Open Scope string_scope.
Open Scope list_scope.
Open Scope nat_scope.
Import ListNotations.

Set Implicit Arguments.

(** ** Python exceptions and results *)

Inductive PyError : Type :=
| ValueError (msg : string)
| RuntimeError (msg : string)
| IndexError (msg : string)
| ImportError (msg : string)
| NameError (msg : string)
| AssertionError (expected got : nat).

Inductive result (A : Type) : Type :=
| Ok (a : A)
| Err (e : PyError).

Arguments Ok {A} a.
Arguments Err {A} e.

Definition bind {A B : Type} (c : result A) (k : A -> result B) : result B :=
  match c with
  | Ok a => k a
  | Err e => Err e
  end.

Notation "x <- c ;; k" := (bind c (fun x => k))
  (at level 61, c at next level, right associativity).

(** A [for] loop that appends one value per iteration to a list; the first
    exception leaves the loop. *)
Fixpoint for_each {A B : Type} (body : A -> result B) (l : list A)
  : result (list B) :=
  match l with
  | [] => Ok []
  | x :: r =>
      y <- body x ;;
      ys <- for_each body r ;;
      Ok (y :: ys)
  end.

(** ** Python built-ins *)

Definition len {A : Type} (l : list A) : Z := Z.of_nat (length l).

(** [range(start, stop, step)] as the list it iterates over. *)
Definition range_length (start stop step : Z) : Z :=
  if (0 <? step)%Z then
    if (start <? stop)%Z then ((stop - start - 1) / step + 1)%Z else 0%Z
  else
    if (stop <? start)%Z then ((start - stop - 1) / (- step) + 1)%Z else 0%Z.

Definition py_range (start stop step : Z) : result (list Z) :=
  if (step =? 0)%Z then Err (ValueError "range() arg 3 must not be zero")
  else Ok (map (fun k => (start + Z.of_nat k * step)%Z)
               (seq 0 (Z.to_nat (range_length start stop step)))).

(** [l[lo:hi]]: negative bounds count from the end, both are clamped. *)
Definition slice_bound (n x : Z) : Z :=
  if (x <? 0)%Z then Z.max 0 (x + n) else Z.min x n.

Definition py_slice {A : Type} (l : list A) (lo hi : Z) : list A :=
  let lo' := slice_bound (len l) lo in
  let hi' := slice_bound (len l) hi in
  firstn (Z.to_nat (hi' - lo')) (skipn (Z.to_nat lo') l).

(** ** Tensors *)

Inductive Device : Type := CPU | CUDA | MPS.

Inductive DType : Type := Float16 | BFloat16 | Float32 | Float64.

Record Tensor (A : Type) : Type := mkTensor {
  shape : list nat;
  device : Device;
  dtype : DType;
  data : A
}.

Definition Vec : Type := list Z.
Definition Mat : Type := list Vec.
Definition Cube : Type := list Mat.
Definition Hyper : Type := list Cube.

(** [t.to(device)], [t.cpu()], [t.to(dtype)]. *)
Definition to_device {A : Type} (d : Device) (t : Tensor A) : Tensor A :=
  mkTensor (shape t) d (dtype t) (data t).

Definition cpu {A : Type} (t : Tensor A) : Tensor A := to_device CPU t.

Definition to_dtype {A : Type} (ty : DType) (t : Tensor A) : Tensor A :=
  mkTensor (shape t) (device t) ty (data t).

Definition size {A : Type} (t : Tensor A) (dim : nat) : nat :=
  nth dim (shape t) 0.

(** Contraction over the last index [d]. *)
Fixpoint dot (u v : Vec) : Z :=
  match u, v with
  | x :: u', y :: v' => (x * y + dot u' v')%Z
  | _, _ => 0%Z
  end.

Definition sum_list (l : list Z) : Z := fold_right Z.add 0%Z l.

(** The largest entry of a list; [max] over a dimension of size zero is
    refused before this is called. *)
Definition max_list (l : list Z) : Z :=
  match l with
  | [] => 0%Z
  | x :: r => fold_left Z.max r x
  end.

Definition max_len (seqs : list Mat) : nat :=
  fold_right Nat.max 0 (map (@length Vec) seqs).

(** [torch.einsum("bd,cd->bc", q, p)]. *)
Definition einsum_bd_cd_bc (q p : Tensor Mat) : Tensor Mat :=
  mkTensor [size q 0; size p 0] (device q) (dtype q)
    (map (fun qb => map (fun pc => dot qb pc) (data p)) (data q)).

(** [torch.einsum("bnd,csd->bcns", q, p)]. *)
Definition einsum_bnd_csd_bcns (q p : Tensor Cube) : Tensor Hyper :=
  mkTensor [size q 0; size p 0; size q 1; size p 1] (device q) (dtype q)
    (map (fun qb =>
       map (fun pc =>
         map (fun qn => map (fun ps => dot qn ps) pc) qb) (data p)) (data q)).

(** [t.max(dim=3)[0]]. *)
Definition max_dim3 (t : Tensor Hyper) : result (Tensor Cube) :=
  if size t 3 =? 0 then
    Err (IndexError "max(): Expected reduction dim 3 to have non-zero size.")
  else
    Ok (mkTensor (firstn 3 (shape t)) (device t) (dtype t)
          (map (map (map max_list)) (data t))).

(** [t.sum(dim=2)]. *)
Definition sum_dim2 (t : Tensor Cube) : Tensor Mat :=
  mkTensor (firstn 2 (shape t)) (device t) (dtype t)
    (map (map sum_list) (data t)).

(** [torch.cat(ts, dim=1)] on matrices: the rows are joined side by side. *)
Definition torch_cat_dim1 (ts : list (Tensor Mat)) : result (Tensor Mat) :=
  match ts with
  | [] => Err (RuntimeError "torch.cat(): expected a non-empty list of Tensors")
  | t :: _ =>
      if forallb (fun u => size u 0 =? size t 0) ts then
        Ok (mkTensor [size t 0; fold_right Nat.add 0 (map (fun u => size u 1) ts)]
              (device t) (dtype t)
              (map (fun k => concat (map (fun u => nth k (data u) []) ts))
                   (seq 0 (size t 0))))
      else
        Err (RuntimeError "Sizes of tensors must match except in dimension 1.")
  end.

(** [torch.cat(ts, dim=0)] on matrices: the blocks of rows are stacked. *)
Definition torch_cat_dim0 (ts : list (Tensor Mat)) : result (Tensor Mat) :=
  match ts with
  | [] => Err (RuntimeError "torch.cat(): expected a non-empty list of Tensors")
  | t :: _ =>
      if forallb (fun u => size u 1 =? size t 1) ts then
        Ok (mkTensor [fold_right Nat.add 0 (map (fun u => size u 0) ts); size t 1]
              (device t) (dtype t)
              (concat (map (@data Mat) ts)))
      else
        Err (RuntimeError "Sizes of tensors must match except in dimension 0.")
  end.

(** ** The module and its optional backend *)

(** [from fast_plaid import search] in an environment where the package is
    installed or not. *)
Definition import_fast_plaid (fast_plaid_installed : bool) : result unit :=
  if fast_plaid_installed then Ok tt
  else Err (ImportError "No module named 'fast_plaid'").

(** [importlib.util.find_spec("fast_plaid")]: [None] when the package is
    absent. *)
Definition find_spec (fast_plaid_installed : bool) : option unit :=
  if fast_plaid_installed then Some tt else None.

(** What loading the module leaves behind: whether the name [search] is
    bound, and the messages handed to [logging.info]. *)
Record Globals : Type := mkGlobals {
  search_bound : bool;
  logged_info : list string
}.

(** The [try: ... except ImportError: logging.info(...)] at the top of the
    module; any other exception would leave the import. *)
Definition load_module (fast_plaid_installed : bool) : result Globals :=
  match import_fast_plaid fast_plaid_installed with
  | Ok _ => Ok (mkGlobals true [])
  | Err (ImportError _) =>
      Ok (mkGlobals false
            ["FastPlaid is not installed.If you want to use it:Instal with `pip install --no-deps fast-plaid fastkmeans`"])
  | Err e => Err e
  end.

(** ** Sample inputs *)

(** Three queries of 2, 1 and 1 tokens and two passages of 1 and 2 tokens,
    in dimension 2. *)
Definition sample_queries : list Mat :=
  [ [[1; 2]; [3; 4]]; [[0; 1]]; [[5; 5]] ]%Z.

Definition sample_passages : list Mat :=
  [ [[1; 1]]; [[-1; 0]; [2; -1]] ]%Z.

(** The first query followed by one zero vector, the others as they are. *)
Definition sample_queries_extended : list Mat :=
  [ [[1; 2]; [3; 4]; [0; 0]]; [[0; 1]]; [[5; 5]] ]%Z.

(** Single-vector embeddings in dimension 2. *)
Definition sample_query_vecs : list Vec := [ [1; 2]; [3; 4] ]%Z.

Definition sample_passage_vecs : list Vec := [ [1; 1]; [-1; 0]; [2; -1] ]%Z.

(** One query token that scores -1 against every passage token, and two
    passages of different lengths, in dimension 1. *)
Definition opposed_query : list Mat := [ [[1]] ]%Z.

Definition opposed_passages : list Mat := [ [[-1]]; [[-1]; [-1]] ]%Z.

(** An index whose search answers each query of a batch with one ranked
    pair: the number of positions of the padded query and [k]. *)
Definition sample_search (idx : unit) (t : Tensor Cube) (k : Z)
  : list (list (Z * Z)) :=
  map (fun q => [(Z.of_nat (length q), k)]) (data t).

(** Two passages, the first without any token, in dimension 2. *)
Definition tokenless_first_passages : list Mat :=
  [ []; [[1; 1]] ]%Z.

(** Two queries without and with tokens, in dimension 2. *)
Definition tokenless_first_queries : list Mat :=
  [ []; [[1; 2]] ]%Z.

(** A query list holding the second sample query at another position. *)
Definition other_queries : list Mat :=
  [ [[7; 7]; [1; 0]; [2; 2]]; [[4; 4]]; [[0; 1]] ]%Z.

(** Case analysis on a membership in an explicit list. *)
Ltac in_cases H :=
  simpl in H; repeat (destruct H as [<-|H]); try contradiction.

(** ** BaseVisualRetrieverProcessor *)

Section Processor.

(** The embedding dimension shared by the tensors of a call. *)
Variable D : nat.
(** The value of [get_torch_device("auto")]. *)
Variable auto_device : Device.
(** Where the caller's tensors live, and their element type. *)
Variable in_device : Device.
Variable in_dtype : DType.
(** The fast_plaid index: its constructor [search.FastPlaid(index=...)],
    and its methods [create] and [search]. A query's result is its ranked
    list of (passage id, score). *)
Variable PlaidIndex : Type.
Variable FastPlaid : string -> PlaidIndex.
Variable plaid_create : PlaidIndex -> list (Tensor Mat) -> PlaidIndex.
Variable plaid_search : PlaidIndex -> Tensor Cube -> Z -> list (list (Z * Z)).

(** [device or get_torch_device("auto")]. *)
Definition device_or_auto (device : option Device) : Device :=
  match device with
  | Some d => d
  | None => auto_device
  end.

(** One of the caller's tensors of shape [(sequence_length, D)]. *)
Definition as_tensor (d : Mat) : Tensor Mat :=
  mkTensor [length d; D] in_device in_dtype d.

(** [torch.stack(vs)] on vectors of dimension [D]. *)
Definition torch_stack (vs : list Vec) : result (Tensor Mat) :=
  match vs with
  | [] => Err (RuntimeError "stack expects a non-empty TensorList")
  | _ => Ok (mkTensor [length vs; D] in_device in_dtype vs)
  end.

(** A sequence extended with zero vectors up to [n] positions. *)
Definition pad_to (n : nat) (s : Mat) : Mat :=
  s ++ repeat (repeat 0%Z D) (n - length s).

(** [torch.nn.utils.rnn.pad_sequence(seqs, batch_first=True,
    padding_value=0)]. *)
Definition pad_sequence (seqs : list Mat) : result (Tensor Cube) :=
  match seqs with
  | [] => Err (RuntimeError "received an empty list of sequences")
  | _ => Ok (mkTensor [length seqs; max_len seqs; D] in_device in_dtype
               (map (pad_to (max_len seqs)) seqs))
  end.

Definition score_single_vector (qs ps : list Vec) (device : option Device)
  : result (Tensor Mat) :=
  let device := device_or_auto device in
  if (len qs =? 0)%Z then Err (ValueError "No queries provided") else
  if (len ps =? 0)%Z then Err (ValueError "No passages provided") else
  qs_stacked <- torch_stack qs ;;
  let qs_stacked := to_device device qs_stacked in
  ps_stacked <- torch_stack ps ;;
  let ps_stacked := to_device device ps_stacked in
  let scores := einsum_bd_cd_bc qs_stacked ps_stacked in
  if (Z.of_nat (size scores 0) =? len qs)%Z then
    let scores := to_dtype Float32 scores in
    Ok scores
  else Err (AssertionError (length qs) (size scores 0)).

Definition score_multi_vector (qs ps : list Mat) (batch_size : Z)
    (device : option Device) : result (Tensor Mat) :=
  let device := device_or_auto device in
  if (len qs =? 0)%Z then Err (ValueError "No queries provided") else
  if (len ps =? 0)%Z then Err (ValueError "No passages provided") else
  q_starts <- py_range 0 (len qs) batch_size ;;
  scores_list <-
    for_each (fun i =>
      qs_batch <- pad_sequence (py_slice qs i (i + batch_size)) ;;
      let qs_batch := to_device device qs_batch in
      p_starts <- py_range 0 (len ps) batch_size ;;
      scores_batch <-
        for_each (fun j =>
          ps_batch <- pad_sequence (py_slice ps j (j + batch_size)) ;;
          let ps_batch := to_device device ps_batch in
          maxima <- max_dim3 (einsum_bnd_csd_bcns qs_batch ps_batch) ;;
          Ok (sum_dim2 maxima)) p_starts ;;
      scores_batch <- torch_cat_dim1 scores_batch ;;
      Ok (cpu scores_batch)) q_starts ;;
  scores <- torch_cat_dim0 scores_list ;;
  if (Z.of_nat (size scores 0) =? len qs)%Z then
    let scores := to_dtype Float32 scores in
    Ok scores
  else Err (AssertionError (length qs) (size scores 0)).

Definition get_topk_plaid (qs : list Mat) (plaid_index : PlaidIndex)
    (k batch_size : Z) (device : option Device)
  : result (list (list (list (Z * Z)))) :=
  let device := device_or_auto device in
  if (len qs =? 0)%Z then Err (ValueError "No queries provided") else
  q_starts <- py_range 0 (len qs) batch_size ;;
  scores_list <-
    for_each (fun i =>
      qs_batch <- pad_sequence (py_slice qs i (i + batch_size)) ;;
      let qs_batch := to_device device qs_batch in
      let scores_batch := plaid_search plaid_index (to_dtype Float32 qs_batch) k in
      Ok scores_batch) q_starts ;;
  Ok scores_list.

Definition create_plaid_index (fast_plaid_installed : bool) (g : Globals)
    (ps : list Mat) (device : option Device) : result PlaidIndex :=
  match find_spec fast_plaid_installed with
  | None =>
      Err (ImportError
             "FastPlaid is not installed. Please install it with `pip install fast-plaid`.")
  | Some _ =>
      if search_bound g then
        let fast_plaid_index := FastPlaid "index" in
        let device := device_or_auto device in
        Ok (plaid_create fast_plaid_index
              (map (fun d => to_dtype Float32 (to_device device (as_tensor d))) ps))
      else Err (NameError "name 'search' is not defined")
  end.

(** ** Vocabulary of the properties *)

(** The consecutive batches of at most [b] items that the loops
    [for i in range(0, len(l), b)] cut with [l[i : i + b]]. *)
Definition batches {A : Type} (b : nat) (l : list A) : list (list A) :=
  map (fun k => firstn b (skipn (k * b) l)) (seq 0 ((length l + b - 1) / b)).

(** The batch that item [i] falls in. *)
Definition batch_of {A : Type} (b : nat) (l : list A) (i : nat) : list A :=
  firstn b (skipn (i / b * b) l).

(** Item [i] as it stands in its padded batch. *)
Definition padded (b : nat) (l : list Mat) (i : nat) : Mat :=
  pad_to (max_len (batch_of b l i)) (nth i l []).

(** MaxSim: for each query token the largest dot product with a passage
    token, summed over the query tokens. *)
Definition maxsim (q p : Mat) : Z :=
  sum_list (map (fun qn => max_list (map (fun ps => dot qn ps) p)) q).

Definition entry (m : Mat) (i j : nat) : Z := nth j (nth i m []) 0%Z.

(** The scores of one query against all passages, passage batch by
    passage batch, each passage padded within its batch. *)
Definition score_row (b : nat) (ps : list Mat) (q : Mat) : list Z :=
  concat (map (fun cp => map (fun p => maxsim q (pad_to (max_len cp) p)) cp)
              (batches b ps)).

(** Every token of every embedding has [D] coordinates. *)
Definition uniform_dim (l : list Mat) : Prop :=
  Forall (Forall (fun v : Vec => length v = D)) l.

Definition uniform_vecs (l : list Vec) : Prop :=
  Forall (fun v : Vec => length v = D) l.

(** Every padded passage has at least one token position. *)
Definition has_positions (b : nat) (ps : list Mat) : Prop :=
  forall j, j < length ps -> 0 < max_len (batch_of b ps j).

(** [q'] is [q] followed by all-zero vectors. *)
Definition zero_extended (q q' : Mat) : Prop :=
  exists k, q' = q ++ repeat (repeat 0%Z D) k.

(** Each token of [q] has a non-negative best dot product within [p]. *)
Definition best_match_nonneg (q p : Mat) : Prop :=
  forall qn, In qn q -> (0 <= max_list (map (fun ps => dot qn ps) p))%Z.

Definition is_Ok {A : Type} (r : result A) : Prop :=
  match r with
  | Ok _ => True
  | Err _ => False
  end.

(** MaxSim with every per-token maximum raised to zero at least: what a
    passage scores once zero vectors stand beside its tokens. *)
Definition clamped_maxsim (q p : Mat) : Z :=
  sum_list
    (map (fun qn => Z.max 0 (max_list (map (fun ps => dot qn ps) p))) q).

(** An embedding of one token. *)
Definition single_token (v : Vec) : Mat := [v].

(** The index answers each query of a batch on its own. *)
Definition answers_row_by_row (idx : PlaidIndex)
    (answer : Z -> Mat -> list (Z * Z)) : Prop :=
  forall t k, plaid_search idx t k = map (answer k) (data t).

(** ** Loops, ranges and slices *)

Unset Implicit Arguments.

Lemma for_each_map {A B C : Type} (g : A -> B) (body : B -> result C) l :
  for_each body (map g l) = for_each (fun x => body (g x)) l.
Proof.
  induction l as [|x r IH]; simpl; [reflexivity|].
  now rewrite IH.
Qed.

Lemma for_each_ok {A B : Type} (body : A -> result B) (f : A -> B) l :
  (forall x, In x l -> body x = Ok (f x)) ->
  for_each body l = Ok (map f l).
Proof.
  induction l as [|x r IH]; intros H; simpl; [reflexivity|].
  rewrite (H x (or_introl eq_refl)); simpl.
  rewrite IH; [reflexivity|].
  intros y Hy. apply H. now right.
Qed.

Lemma ceil_div_pos n b : 0 < b -> 0 < n -> 0 < (n + b - 1) / b.
Proof.
  intros Hb Hn. apply Nat.div_str_pos. lia.
Qed.

Lemma ceil_div_bound n b k : 0 < b -> k < (n + b - 1) / b -> k * b < n.
Proof.
  intros Hb Hk.
  destruct (Nat.lt_ge_cases (k * b) n) as [|Hge]; [assumption|exfalso].
  assert (Hlt : (n + b - 1) / b < S k).
  { apply Nat.Div0.div_lt_upper_bound. nia. }
  lia.
Qed.

Lemma ceil_div_cover n b : 0 < b -> n <= (n + b - 1) / b * b.
Proof.
  intros Hb.
  pose proof (Nat.Div0.div_mod (n + b - 1) b) as E.
  pose proof (Nat.mod_upper_bound (n + b - 1) b) as U.
  nia.
Qed.

Lemma range_length_pos n b :
  0 < b ->
  Z.to_nat (range_length 0 (Z.of_nat n) (Z.of_nat b)) = (n + b - 1) / b.
Proof.
  intros Hb. unfold range_length.
  destruct (Z.ltb_spec 0 (Z.of_nat b)); [|lia].
  destruct (Z.ltb_spec 0 (Z.of_nat n)) as [Hn|Hn].
  - replace (Z.of_nat n - 0 - 1)%Z with (Z.of_nat (n - 1)) by lia.
    rewrite <- Nat2Z.inj_div.
    replace (Z.of_nat ((n - 1) / b) + 1)%Z with (Z.of_nat ((n - 1) / b + 1)) by lia.
    rewrite Nat2Z.id.
    replace (n + b - 1) with ((n - 1) + 1 * b) by lia.
    rewrite Nat.div_add by lia. reflexivity.
  - assert (n = 0) by lia. subst n. simpl.
    symmetry. apply Nat.div_small. lia.
Qed.

Lemma py_range_pos n b :
  0 < b ->
  py_range 0 (Z.of_nat n) (Z.of_nat b)
  = Ok (map (fun k => Z.of_nat (k * b)) (seq 0 ((n + b - 1) / b))).
Proof.
  intros Hb. unfold py_range.
  destruct (Z.eqb_spec (Z.of_nat b) 0); [lia|].
  rewrite range_length_pos by assumption.
  f_equal. apply map_ext. intros k. lia.
Qed.

Lemma py_range_zero start stop :
  py_range start stop 0 = Err (ValueError "range() arg 3 must not be zero").
Proof. reflexivity. Qed.

Lemma py_range_neg n step :
  (step < 0)%Z -> py_range 0 (Z.of_nat n) step = Ok [].
Proof.
  intros Hs. unfold py_range, range_length.
  destruct (Z.eqb_spec step 0); [lia|].
  destruct (Z.ltb_spec 0 step); [lia|].
  destruct (Z.ltb_spec (Z.of_nat n) 0); [lia|].
  reflexivity.
Qed.

Lemma py_slice_batch {A : Type} (l : list A) lo b :
  lo <= length l ->
  py_slice l (Z.of_nat lo) (Z.of_nat lo + Z.of_nat b) = firstn b (skipn lo l).
Proof.
  intros Hlo. unfold py_slice, slice_bound, len.
  destruct (Z.ltb_spec (Z.of_nat lo) 0); [lia|].
  destruct (Z.ltb_spec (Z.of_nat lo + Z.of_nat b) 0); [lia|].
  rewrite (Z.min_l (Z.of_nat lo)) by lia.
  rewrite Nat2Z.id.
  rewrite <- (firstn_all (skipn lo l)) at 1.
  rewrite firstn_firstn, length_skipn.
  rewrite <- (firstn_all (skipn lo l)) at 2.
  rewrite firstn_firstn, length_skipn.
  f_equal. lia.
Qed.

(** ** Batches *)

Lemma firstn_plus {A : Type} (l : list A) a b :
  firstn (a + b) l = firstn a l ++ firstn b (skipn a l).
Proof.
  revert l. induction a as [|a IH]; intros l; simpl; [reflexivity|].
  destruct l as [|x r]; simpl.
  - now rewrite firstn_nil.
  - now rewrite IH.
Qed.

Lemma concat_batch_prefix {A : Type} (l : list A) b m :
  concat (map (fun k => firstn b (skipn (k * b) l)) (seq 0 m))
  = firstn (m * b) l.
Proof.
  induction m as [|m IH]; [reflexivity|].
  rewrite seq_S, map_app, concat_app, IH. simpl.
  rewrite app_nil_r.
  replace (b + m * b) with (m * b + b) by lia.
  now rewrite firstn_plus.
Qed.

Lemma concat_batches {A : Type} (l : list A) b :
  0 < b -> concat (batches b l) = l.
Proof.
  intros Hb. unfold batches. rewrite concat_batch_prefix.
  apply firstn_all2. now apply ceil_div_cover.
Qed.

Lemma batches_not_nil {A : Type} (l : list A) b :
  0 < b -> l <> [] -> batches b l <> [].
Proof.
  intros Hb Hl E.
  apply (f_equal (@concat A)) in E.
  rewrite concat_batches in E by assumption. now apply Hl.
Qed.

Lemma in_batches {A : Type} (l : list A) b c :
  0 < b -> In c (batches b l) ->
  exists j, j < length l /\ c = batch_of b l j.
Proof.
  intros Hb Hc. unfold batches in Hc.
  apply in_map_iff in Hc. destruct Hc as [k [Hk Hin]].
  apply in_seq in Hin.
  exists (k * b). split.
  - apply ceil_div_bound; [assumption|lia].
  - unfold batch_of. rewrite Nat.div_mul by lia. now symmetry.
Qed.

Lemma batch_of_not_nil {A : Type} (l : list A) b j :
  0 < b -> j < length l -> batch_of b l j <> [].
Proof.
  intros Hb Hj E.
  apply (f_equal (@length A)) in E. unfold batch_of in E.
  rewrite length_firstn, length_skipn in E. simpl in E.
  pose proof (Nat.Div0.mul_div_le j b). nia.
Qed.

Lemma batch_not_nil {A : Type} (l : list A) b c :
  0 < b -> In c (batches b l) -> c <> [].
Proof.
  intros Hb Hc. destruct (in_batches l b c Hb Hc) as [j [Hj ->]].
  now apply batch_of_not_nil.
Qed.

Lemma batch_length_le {A : Type} (l : list A) b c :
  In c (batches b l) -> length c <= b.
Proof.
  intros Hc. unfold batches in Hc.
  apply in_map_iff in Hc. destruct Hc as [k [<- _]].
  rewrite length_firstn. lia.
Qed.

Lemma in_batch_in {A : Type} (l : list A) b c x :
  0 < b -> In c (batches b l) -> In x c -> In x l.
Proof.
  intros Hb Hc Hx.
  rewrite <- (concat_batches l b Hb). apply in_concat. now exists c.
Qed.

Lemma batch_lengths_sum {A : Type} (l : list A) b :
  0 < b ->
  fold_right Nat.add 0 (map (@length A) (batches b l)) = length l.
Proof.
  intros Hb.
  rewrite <- (concat_batches l b Hb) at 2.
  now rewrite length_concat.
Qed.

(** Position [q * b + r] of a concatenation whose first [q] blocks have
    [b] items each is position [r] of block [q]. *)
Lemma nth_concat_blocks {A : Type} (F : nat -> list A) b d :
  forall m s q r,
    q < m ->
    r < length (F (s + q)) ->
    (forall k, k < q -> length (F (s + k)) = b) ->
    nth (q * b + r) (concat (map F (seq s m))) d = nth r (F (s + q)) d.
Proof.
  induction m as [|m IH]; intros s q r Hq Hr Hfull; [lia|].
  simpl. destruct q as [|q].
  - rewrite Nat.add_0_r in *. simpl. now apply app_nth1.
  - assert (Hs : length (F s) = b).
    { rewrite <- (Nat.add_0_r s). apply Hfull. lia. }
    rewrite app_nth2 by (rewrite Hs; simpl; lia).
    replace (S q * b + r - length (F s)) with (q * b + r)
      by (rewrite Hs; simpl; lia).
    replace (s + S q) with (S s + q) in * by lia.
    apply IH; [lia|assumption|].
    intros k Hk. replace (S s + k) with (s + S k) by lia.
    apply Hfull. lia.
Qed.

Lemma nth_batch_of {A : Type} (l : list A) b j d :
  0 < b -> nth (j mod b) (batch_of b l j) d = nth j l d.
Proof.
  intros Hb. unfold batch_of.
  rewrite nth_firstn.
  pose proof (Nat.mod_upper_bound j b) as U.
  destruct (Nat.ltb_spec (j mod b) b); [|lia].
  rewrite nth_skipn. f_equal.
  pose proof (Nat.Div0.div_mod j b). lia.
Qed.

(** An entry of a row assembled batch by batch. *)
Lemma nth_concat_batches {A B : Type} (g : list A -> A -> B)
    (l : list A) b j dA dB :
  0 < b -> j < length l ->
  nth j (concat (map (fun c => map (g c) c) (batches b l))) dB
  = g (batch_of b l j) (nth j l dA).
Proof.
  intros Hb Hj. unfold batches. rewrite map_map.
  pose proof (Nat.Div0.div_mod j b) as E.
  pose proof (Nat.mod_upper_bound j b) as U.
  pose proof (Nat.Div0.mul_div_le j b) as Hle.
  set (F := fun k => map (g (firstn b (skipn (k * b) l)))
                         (firstn b (skipn (k * b) l))).
  replace j with (j / b * b + j mod b) at 1 by lia.
  rewrite (nth_concat_blocks F b).
  - simpl. unfold F.
    fold (batch_of b l j).
    rewrite (nth_indep _ dB (g (batch_of b l j) dA)).
    + rewrite map_nth. now rewrite nth_batch_of.
    + rewrite length_map. unfold batch_of.
      rewrite length_firstn, length_skipn. lia.
  - apply Nat.Div0.div_lt_upper_bound.
    pose proof (ceil_div_cover (length l) b Hb). nia.
  - simpl. unfold F. rewrite length_map, length_firstn, length_skipn. lia.
  - intros k Hk. simpl. unfold F.
    rewrite length_map, length_firstn, length_skipn. nia.
Qed.

(** ** Zero vectors under the dot product, the maximum and the sum *)

Lemma dot_zero_l n v : dot (repeat 0%Z n) v = 0%Z.
Proof.
  revert v. induction n as [|n IH]; intros v; simpl; [reflexivity|].
  destruct v as [|y v]; [reflexivity|]. now rewrite IH.
Qed.

Lemma dot_zero_r n u : dot u (repeat 0%Z n) = 0%Z.
Proof.
  revert n. induction u as [|x u IH]; intros n; simpl; [reflexivity|].
  destruct n as [|n]; simpl; [reflexivity|]. rewrite IH. lia.
Qed.

Lemma sum_list_app l1 l2 :
  sum_list (l1 ++ l2) = (sum_list l1 + sum_list l2)%Z.
Proof.
  unfold sum_list. induction l1 as [|x r IH]; simpl; [reflexivity|].
  rewrite IH. lia.
Qed.

Lemma sum_list_zeros n : sum_list (repeat 0%Z n) = 0%Z.
Proof. induction n as [|n IH]; simpl; [reflexivity|]. exact IH. Qed.

Lemma fold_max_zeros n : fold_left Z.max (repeat 0%Z n) 0%Z = 0%Z.
Proof. induction n as [|n IH]; simpl; [reflexivity|]. exact IH. Qed.

Lemma max_list_zeros n : max_list (repeat 0%Z n) = 0%Z.
Proof. destruct n as [|n]; simpl; [reflexivity|]. apply fold_max_zeros. Qed.

Lemma fold_max_app l1 l2 x :
  fold_left Z.max (l1 ++ l2) x = fold_left Z.max l2 (fold_left Z.max l1 x).
Proof. apply fold_left_app. Qed.

Lemma fold_max_init l x y :
  fold_left Z.max l (Z.max x y) = Z.max x (fold_left Z.max l y).
Proof.
  revert y. induction l as [|z l IH]; intros y; simpl; [reflexivity|].
  rewrite <- Z.max_assoc. apply IH.
Qed.

Lemma max_list_app l1 l2 :
  l1 <> [] -> l2 <> [] ->
  max_list (l1 ++ l2) = Z.max (max_list l1) (max_list l2).
Proof.
  intros H1 H2.
  destruct l1 as [|x l1]; [contradiction|].
  destruct l2 as [|y l2]; [contradiction|].
  simpl. rewrite fold_max_app. simpl. apply fold_max_init.
Qed.

(** A zero query token scores zero against every passage. *)
Lemma zero_token_max (p : Mat) :
  max_list (map (fun ps => dot (repeat 0%Z D) ps) p) = 0%Z.
Proof.
  rewrite (map_ext _ (fun _ => 0%Z)) by (intros; apply dot_zero_l).
  rewrite map_const. apply max_list_zeros.
Qed.

Lemma maxsim_app q1 q2 p :
  maxsim (q1 ++ q2) p = (maxsim q1 p + maxsim q2 p)%Z.
Proof. unfold maxsim. now rewrite map_app, sum_list_app. Qed.

Lemma maxsim_zero_rows k p : maxsim (repeat (repeat 0%Z D) k) p = 0%Z.
Proof.
  unfold maxsim. induction k as [|k IH]; simpl; [reflexivity|].
  rewrite zero_token_max. exact IH.
Qed.

Lemma maxsim_zero_extended q k p :
  maxsim (q ++ repeat (repeat 0%Z D) k) p = maxsim q p.
Proof. rewrite maxsim_app, maxsim_zero_rows. lia. Qed.

Lemma maxsim_pad_query n q p : maxsim (pad_to n q) p = maxsim q p.
Proof. apply maxsim_zero_extended. Qed.

Lemma pad_to_full n (s : Mat) : n <= length s -> pad_to n s = s.
Proof.
  intros H. unfold pad_to.
  replace (n - length s) with 0 by lia. apply app_nil_r.
Qed.

(** Zero passage positions leave a non-negative maximum alone. *)
Lemma max_pad_passage (qn : Vec) (p : Mat) k :
  p <> [] ->
  (0 <= max_list (map (fun ps => dot qn ps) p))%Z ->
  max_list (map (fun ps => dot qn ps) (p ++ repeat (repeat 0%Z D) k))
  = max_list (map (fun ps => dot qn ps) p).
Proof.
  intros Hp Hmax. destruct k as [|k].
  - simpl. now rewrite app_nil_r.
  - rewrite map_app, max_list_app.
    + rewrite map_repeat, dot_zero_r, max_list_zeros. lia.
    + destruct p; [contradiction|discriminate].
    + discriminate.
Qed.

Lemma maxsim_pad_passage q p n :
  p <> [] -> best_match_nonneg q p ->
  maxsim q (pad_to n p) = maxsim q p.
Proof.
  intros Hp Hq. unfold maxsim, pad_to. f_equal.
  apply map_ext_in. intros qn Hin.
  apply max_pad_passage; [assumption|]. now apply Hq.
Qed.

Lemma max_len_ge (c : list Mat) p : In p c -> length p <= max_len c.
Proof.
  unfold max_len. induction c as [|x c IH]; simpl; [contradiction|].
  intros [->|Hin]; [lia|]. specialize (IH Hin). lia.
Qed.

Lemma max_len_same (c : list Mat) n :
  c <> [] -> (forall p, In p c -> length p = n) -> max_len c = n.
Proof.
  unfold max_len. induction c as [|x c IH]; intros Hne Hall; [contradiction|].
  simpl. rewrite (Hall x (or_introl eq_refl)).
  destruct c as [|y c]; [simpl; lia|].
  rewrite IH; [lia|discriminate|].
  intros p Hp. apply Hall. now right.
Qed.

(** ** One pass of the loops of [score_multi_vector] *)

Lemma map_seq_nth {A B : Type} (f : A -> B) (l : list A) d :
  map (fun k => f (nth k l d)) (seq 0 (length l)) = map f l.
Proof.
  apply (nth_ext _ _ (f d) (f d)).
  - now rewrite !length_map, length_seq.
  - intros n Hn. rewrite length_map, length_seq in Hn.
    rewrite map_nth.
    rewrite (nth_indep _ (f d) (f (nth 0 l d)))
      by now rewrite length_map, length_seq.
    rewrite (map_nth (fun k => f (nth k l d)) (seq 0 (length l)) 0).
    now rewrite seq_nth.
Qed.

Lemma nth_map_in {A B : Type} (f : A -> B) (l : list A) k dA dB :
  k < length l -> nth k (map f l) dB = f (nth k l dA).
Proof.
  intros Hk. rewrite (nth_indep _ dB (f dA)) by now rewrite length_map.
  apply map_nth.
Qed.

(** The body of the inner loop: pad the passages, take all dot products,
    the maximum over passage positions and the sum over query positions. *)
Lemma passage_batch_scores dev (qs_batch : Tensor Cube) (cp : list Mat) :
  cp <> [] -> 0 < max_len cp ->
  (ps_batch <- pad_sequence cp ;;
   let ps_batch := to_device dev ps_batch in
   maxima <- max_dim3 (einsum_bnd_csd_bcns qs_batch ps_batch) ;;
   Ok (sum_dim2 maxima))
  = Ok (mkTensor [size qs_batch 0; length cp] (device qs_batch) (dtype qs_batch)
          (map (fun qb => map (fun p => maxsim qb (pad_to (max_len cp) p)) cp)
               (data qs_batch))).
Proof.
  intros Hne Hlen. unfold pad_sequence.
  destruct cp as [|p0 cp']; [contradiction|].
  set (cp := p0 :: cp') in *.
  cbv beta iota delta [bind to_device max_dim3 einsum_bnd_csd_bcns size
                       shape device dtype data nth].
  destruct (Nat.eqb_spec (max_len cp) 0) as [E|_]; [lia|].
  unfold sum_dim2. cbv beta iota delta [shape device dtype data firstn].
  f_equal. f_equal.
  rewrite !map_map. apply map_ext. intros qb.
  rewrite !map_map. apply map_ext. intros p.
  unfold maxsim. now rewrite map_map.
Qed.

(** [torch.cat(dim=1)] of the blocks of one query batch. *)
Lemma torch_cat_dim1_blocks (h : Mat -> list Mat -> list Z)
    (cq : list Mat) (cs : list (list Mat)) dev ty :
  cs <> [] ->
  torch_cat_dim1
    (map (fun cp => mkTensor [length cq; length cp] dev ty
                      (map (fun q => h q cp) cq)) cs)
  = Ok (mkTensor [length cq; fold_right Nat.add 0 (map (@length Mat) cs)] dev ty
          (map (fun q => concat (map (fun cp => h q cp) cs)) cq)).
Proof.
  intros Hne.
  set (mk := fun cp => mkTensor [length cq; length cp] dev ty
                         (map (fun q => h q cp) cq)).
  assert (Hall : forall t, forallb (fun u => size u 0 =? size (mk t) 0)
                             (map mk cs) = true).
  { intros t. apply forallb_forall. intros u Hu.
    apply in_map_iff in Hu. destruct Hu as [c [<- _]].
    apply Nat.eqb_refl. }
  unfold torch_cat_dim1.
  destruct (map mk cs) as [|t ts] eqn:E.
  { destruct cs; [contradiction|discriminate]. }
  assert (Ht : exists c, t = mk c).
  { destruct cs as [|c cs']; [discriminate|]. exists c. now inversion E. }
  destruct Ht as [c0 ->].
  rewrite Hall. rewrite <- E.
  f_equal. f_equal.
  - f_equal. f_equal. rewrite map_map. reflexivity.
  - change (size (mk c0) 0) with (length cq).
    rewrite <- (map_seq_nth (fun q => concat (map (fun cp => h q cp) cs)) cq []).
    apply map_ext_in. intros k Hk. apply in_seq in Hk.
    f_equal. rewrite map_map. apply map_ext. intros cp.
    unfold mk. cbv beta iota delta [data].
    apply (nth_map_in (fun q => h q cp)). lia.
Qed.

Lemma has_positions_batch b ps cp :
  0 < b -> has_positions b ps -> In cp (batches b ps) -> 0 < max_len cp.
Proof.
  intros Hb Hpos Hin.
  destruct (in_batches ps b cp Hb Hin) as [j [Hj ->]]. now apply Hpos.
Qed.

(** The body of the outer loop: the scores of one query batch against
    all passages, moved to the host. *)
Lemma query_batch_scores dev b (ps cq : list Mat) :
  0 < b -> ps <> [] -> cq <> [] -> has_positions b ps ->
  (qs_batch <- pad_sequence cq ;;
   let qs_batch := to_device dev qs_batch in
   p_starts <- py_range 0 (len ps) (Z.of_nat b) ;;
   scores_batch <-
     for_each (fun j =>
       ps_batch <- pad_sequence (py_slice ps j (j + Z.of_nat b)) ;;
       let ps_batch := to_device dev ps_batch in
       maxima <- max_dim3 (einsum_bnd_csd_bcns qs_batch ps_batch) ;;
       Ok (sum_dim2 maxima)) p_starts ;;
   scores_batch <- torch_cat_dim1 scores_batch ;;
   Ok (cpu scores_batch))
  = Ok (mkTensor [length cq; length ps] CPU in_dtype (map (score_row b ps) cq)).
Proof.
  intros Hb Hps Hcq Hpos.
  unfold pad_sequence at 1.
  destruct cq as [|q0 cq']; [contradiction|].
  set (cq := q0 :: cq') in *.
  set (qs_batch := to_device dev
         (mkTensor [length cq; max_len cq; D] in_device in_dtype
            (map (pad_to (max_len cq)) cq))).
  change (bind (Ok ?t) ?k) with (k t). cbv beta zeta.
  fold qs_batch.
  unfold len. rewrite py_range_pos by assumption.
  change (bind (Ok ?t) ?k) with (k t). cbv beta.
  rewrite for_each_map.
  set (h := fun (q : Mat) (cp : list Mat) =>
              map (fun p => maxsim q (pad_to (max_len cp) p)) cp).
  rewrite (for_each_ok _
    (fun k => mkTensor [length cq; length (firstn b (skipn (k * b) ps))]
                dev in_dtype
                (map (fun q => h q (firstn b (skipn (k * b) ps))) cq))).
  - change (bind (Ok ?t) ?k) with (k t). cbv beta.
    rewrite <- (map_map (fun k => firstn b (skipn (k * b) ps))
                  (fun cp => mkTensor [length cq; length cp] dev in_dtype
                               (map (fun q => h q cp) cq))).
    fold (batches b ps).
    rewrite torch_cat_dim1_blocks by now apply batches_not_nil.
    rewrite batch_lengths_sum by assumption.
    reflexivity.
  - intros k Hk. apply in_seq in Hk.
    assert (Hkb : k * b < length ps) by (apply ceil_div_bound; [assumption|lia]).
    rewrite py_slice_batch by lia.
    assert (Hin : In (firstn b (skipn (k * b) ps)) (batches b ps)).
    { unfold batches. apply in_map_iff. exists k. split; [reflexivity|].
      apply in_seq. lia. }
    rewrite passage_batch_scores.
    + f_equal. unfold qs_batch. cbv beta iota delta [to_device size shape device dtype data nth].
      f_equal. rewrite map_map. apply map_ext. intros q.
      unfold h. apply map_ext. intros p. apply maxsim_pad_query.
    + now apply (batch_not_nil ps b).
    + now apply (has_positions_batch b ps).
Qed.

(** [torch.cat(dim=0)] of the rows of the query batches. *)
Lemma torch_cat_dim0_blocks (r : Mat -> list Z) (cs : list (list Mat))
    n dev ty :
  cs <> [] ->
  torch_cat_dim0
    (map (fun cq => mkTensor [length cq; n] dev ty (map r cq)) cs)
  = Ok (mkTensor [fold_right Nat.add 0 (map (@length Mat) cs); n] dev ty
          (map r (concat cs))).
Proof.
  intros Hne.
  set (mk := fun cq => mkTensor [length cq; n] dev ty (map r cq)).
  assert (Hall : forall t, forallb (fun u => size u 1 =? size (mk t) 1)
                             (map mk cs) = true).
  { intros t. apply forallb_forall. intros u Hu.
    apply in_map_iff in Hu. destruct Hu as [c [<- _]].
    apply Nat.eqb_refl. }
  unfold torch_cat_dim0.
  destruct (map mk cs) as [|t ts] eqn:E.
  { destruct cs; [contradiction|discriminate]. }
  assert (Ht : exists c, t = mk c).
  { destruct cs as [|c cs']; [discriminate|]. exists c. now inversion E. }
  destruct Ht as [c0 ->].
  rewrite Hall. rewrite <- E.
  f_equal. f_equal.
  - f_equal. rewrite map_map. reflexivity.
  - rewrite map_map, concat_map. reflexivity.
Qed.

(** The whole of [score_multi_vector] on inputs it accepts: one row per
    query, the padding of the queries having dropped out. *)
Lemma score_multi_vector_eval (qs ps : list Mat) b dev :
  0 < b -> qs <> [] -> ps <> [] -> has_positions b ps ->
  score_multi_vector qs ps (Z.of_nat b) dev
  = Ok (mkTensor [length qs; length ps] CPU Float32
          (map (score_row b ps) qs)).
Proof.
  intros Hb Hqs Hps Hpos. unfold score_multi_vector.
  assert (Hq0 : (len qs =? 0)%Z = false).
  { apply Z.eqb_neq. unfold len. destruct qs; [contradiction|simpl; lia]. }
  assert (Hp0 : (len ps =? 0)%Z = false).
  { apply Z.eqb_neq. unfold len. destruct ps; [contradiction|simpl; lia]. }
  cbv zeta. rewrite Hq0, Hp0.
  unfold len at 1. rewrite py_range_pos by assumption.
  change (bind (Ok ?t) ?k) with (k t). cbv beta.
  rewrite for_each_map.
  rewrite (for_each_ok _
    (fun k => mkTensor [length (firstn b (skipn (k * b) qs)); length ps]
                CPU in_dtype
                (map (score_row b ps) (firstn b (skipn (k * b) qs))))).
  - change (bind (Ok ?t) ?k) with (k t). cbv beta.
    rewrite <- (map_map (fun k => firstn b (skipn (k * b) qs))
                  (fun cq => mkTensor [length cq; length ps] CPU in_dtype
                               (map (score_row b ps) cq))).
    fold (batches b qs).
    rewrite torch_cat_dim0_blocks by now apply batches_not_nil.
    rewrite batch_lengths_sum, concat_batches by assumption.
    change (bind (Ok ?t) ?k) with (k t).
    cbv beta iota delta [size shape nth].
    unfold len. rewrite Z.eqb_refl. reflexivity.
  - intros k Hk. apply in_seq in Hk.
    assert (Hkb : k * b < length qs) by (apply ceil_div_bound; [assumption|lia]).
    rewrite py_slice_batch by lia.
    apply query_batch_scores; try assumption.
    apply (batch_not_nil qs b); [assumption|].
    unfold batches. apply in_map_iff. exists k. split; [reflexivity|].
    apply in_seq. lia.
Qed.

Lemma score_row_length b ps q :
  0 < b -> length (score_row b ps q) = length ps.
Proof.
  intros Hb. unfold score_row.
  rewrite length_concat, map_map.
  rewrite (map_ext _ (@length Mat)) by (intros; apply length_map).
  rewrite <- length_concat. now rewrite concat_batches.
Qed.

Lemma score_row_entry b ps q j :
  0 < b -> j < length ps ->
  nth j (score_row b ps q) 0%Z = maxsim q (padded b ps j).
Proof.
  intros Hb Hj. unfold score_row, padded.
  now rewrite (nth_concat_batches
                 (fun cp p => maxsim q (pad_to (max_len cp) p)) ps b j [] 0%Z).
Qed.

Lemma score_row_zero_extended b ps q q' :
  zero_extended q q' -> score_row b ps q' = score_row b ps q.
Proof.
  intros [k ->]. unfold score_row. f_equal.
  apply map_ext. intros cp. apply map_ext. intros p.
  apply maxsim_zero_extended.
Qed.

Lemma batch_of_in_batches {A : Type} (l : list A) b j :
  0 < b -> j < length l -> In (batch_of b l j) (batches b l).
Proof.
  intros Hb Hj. unfold batches, batch_of.
  apply in_map_iff. exists (j / b). split; [reflexivity|].
  apply in_seq. split; [lia|]. simpl.
  apply Nat.Div0.div_lt_upper_bound.
  pose proof (ceil_div_cover (length l) b Hb). nia.
Qed.

Lemma tokens_give_positions b (ps : list Mat) :
  0 < b -> (forall p : Mat, In p ps -> p <> []) -> has_positions b ps.
Proof.
  intros Hb Hne j Hj.
  pose proof (batch_of_in_batches ps b j Hb Hj) as Hin.
  destruct (batch_of b ps j) as [|p c] eqn:E.
  { exfalso. now apply (batch_of_not_nil ps b j Hb Hj). }
  assert (Hp : In p ps).
  { apply (in_batch_in ps b (p :: c)); [assumption|assumption|now left]. }
  specialize (Hne p Hp).
  pose proof (max_len_ge (p :: c) p (or_introl eq_refl)) as Hle.
  assert (Hlen : 0 < length p) by (destruct p; [contradiction|simpl; lia]).
  lia.
Qed.

(** Where padding the passages cannot change a maximum, a row holds the
    MaxSim of the query with each passage as handed in. *)
Lemma score_row_unpadded b (ps : list Mat) (q : Mat) :
  0 < b ->
  (forall p : Mat, In p ps -> p <> []) ->
  (forall p p' : Mat, In p ps -> In p' ps -> length p = length p')
  \/ (forall p : Mat, In p ps -> best_match_nonneg q p) ->
  score_row b ps q = map (maxsim q) ps.
Proof.
  intros Hb Hne Hcase. unfold score_row.
  rewrite <- (concat_batches ps b Hb) at 2.
  rewrite concat_map. f_equal.
  apply map_ext_in. intros cp Hcp.
  apply map_ext_in. intros p Hp.
  assert (Hin : In p ps) by now apply (in_batch_in ps b cp).
  destruct Hcase as [Hsame|Hnonneg].
  - rewrite pad_to_full; [reflexivity|].
    rewrite (max_len_same cp (length p)); [lia| |].
    + now apply (batch_not_nil ps b).
    + intros p' Hp'. apply Hsame; [|assumption].
      now apply (in_batch_in ps b cp).
  - apply maxsim_pad_passage; [now apply Hne|now apply Hnonneg].
Qed.

Lemma score_multi_vector_pos (qs ps : list Mat) batch_size dev :
  (0 < batch_size)%Z -> qs <> [] -> ps <> [] ->
  has_positions (Z.to_nat batch_size) ps ->
  score_multi_vector qs ps batch_size dev
  = Ok (mkTensor [length qs; length ps] CPU Float32
          (map (score_row (Z.to_nat batch_size) ps) qs)).
Proof.
  intros Hb Hqs Hps Hpos.
  rewrite <- (Z2Nat.id batch_size) at 1 by lia.
  apply score_multi_vector_eval; [lia|assumption..].
Qed.

Lemma len_not_nil {A : Type} (l : list A) : l <> [] -> (len l =? 0)%Z = false.
Proof.
  intros H. apply Z.eqb_neq. unfold len.
  destruct l; [contradiction|simpl; lia].
Qed.

Lemma torch_stack_ok (vs : list Vec) :
  vs <> [] -> torch_stack vs = Ok (mkTensor [length vs; D] in_device in_dtype vs).
Proof. intros H. destruct vs; [contradiction|reflexivity]. Qed.

Lemma pad_sequence_ok (seqs : list Mat) :
  seqs <> [] ->
  pad_sequence seqs
  = Ok (mkTensor [length seqs; max_len seqs; D] in_device in_dtype
          (map (pad_to (max_len seqs)) seqs)).
Proof. intros H. destruct seqs; [contradiction|reflexivity]. Qed.

Lemma score_single_vector_eval (qs ps : list Vec) dev :
  qs <> [] -> ps <> [] ->
  score_single_vector qs ps dev
  = Ok (mkTensor [length qs; length ps] (device_or_auto dev) Float32
          (map (fun q => map (fun p => dot q p) ps) qs)).
Proof.
  intros Hqs Hps. unfold score_single_vector.
  cbv zeta. rewrite (len_not_nil qs Hqs), (len_not_nil ps Hps).
  rewrite (torch_stack_ok qs Hqs), (torch_stack_ok ps Hps).
  change (bind (Ok ?t) ?k) with (k t).
  cbv beta iota delta [einsum_bd_cd_bc to_device to_dtype size shape
                       device dtype data nth].
  unfold len. rewrite Z.eqb_refl. reflexivity.
Qed.

Lemma entry_rows {A : Type} (row : A -> list Z) (l : list A) i j dA :
  i < length l -> entry (map row l) i j = nth j (row (nth i l dA)) 0%Z.
Proof.
  intros Hi. unfold entry. f_equal. now apply (nth_map_in row l i dA).
Qed.

(** The loop of [get_topk_plaid] on a non-empty list of queries. *)
Lemma get_topk_plaid_eval (qs : list Mat) idx k b dev :
  0 < b -> qs <> [] ->
  get_topk_plaid qs idx k (Z.of_nat b) dev
  = Ok (map (fun c =>
               plaid_search idx
                 (mkTensor [length c; max_len c; D] (device_or_auto dev)
                    Float32 (map (pad_to (max_len c)) c)) k)
            (batches b qs)).
Proof.
  intros Hb Hqs.
  unfold get_topk_plaid. cbv zeta. rewrite (len_not_nil qs Hqs).
  unfold len. rewrite py_range_pos by assumption.
  change (bind (Ok ?t) ?f) with (f t). cbv beta.
  rewrite for_each_map.
  rewrite (for_each_ok _
    (fun n =>
       (fun c => plaid_search idx
          (mkTensor [length c; max_len c; D] (device_or_auto dev)
             Float32 (map (pad_to (max_len c)) c)) k)
       (firstn b (skipn (n * b) qs)))).
  - change (bind (Ok ?t) ?f) with (f t). cbv beta.
    unfold batches. now rewrite map_map.
  - intros n Hn. apply in_seq in Hn.
    assert (Hnb : n * b < length qs)
      by (apply ceil_div_bound; [assumption|lia]).
    rewrite py_slice_batch by lia.
    rewrite pad_sequence_ok; [reflexivity|].
    apply (batch_not_nil qs b); [assumption|].
    unfold batches. apply in_map_iff. exists n. split; [reflexivity|].
    apply in_seq. lia.
Qed.

(** ** Properties of the scoring functions *)

(** C1. For non-empty lists of multi-vector embeddings, [score_multi_vector]
    returns a matrix with one row per query and one column per passage
    whose entry (i, j) is the MaxSim score of query i and passage j as they
    stand in their padded batches: the sum, over the token positions of the
    padded query, of the maximum, over the token positions of the padded
    passage, of the dot product; padding positions are zero vectors and
    take part. The batch size is positive and every padded passage has at
    least one position for a maximum to range over. *)
Theorem score_multi_vector_maxsim (qs ps : list Mat) batch_size dev :
  qs <> [] -> ps <> [] ->
  uniform_dim qs -> uniform_dim ps ->
  (0 < batch_size)%Z ->
  has_positions (Z.to_nat batch_size) ps ->
  exists scores,
    score_multi_vector qs ps batch_size dev = Ok scores
    /\ shape scores = [length qs; length ps]
    /\ forall i j, i < length qs -> j < length ps ->
         entry (data scores) i j
         = maxsim (padded (Z.to_nat batch_size) qs i)
                  (padded (Z.to_nat batch_size) ps j).
Proof.
  intros Hqs Hps _ _ Hb Hpos.
  eexists. split; [now apply score_multi_vector_pos|].
  split; [reflexivity|].
  intros i j Hi Hj. cbv beta iota delta [data].
  rewrite (entry_rows _ qs i j []) by assumption.
  rewrite score_row_entry by (assumption || lia).
  unfold padded at 2. now rewrite maxsim_pad_query.
Qed.

(** C2. For non-empty lists of single-vector embeddings,
    [score_single_vector] returns a matrix of shape (|Q|, |P|) whose entry
    (i, j) is the dot product of query i and passage j, with element type
    32-bit float. *)
Theorem score_single_vector_dot (qs ps : list Vec) dev :
  qs <> [] -> ps <> [] ->
  uniform_vecs qs -> uniform_vecs ps ->
  exists scores,
    score_single_vector qs ps dev = Ok scores
    /\ shape scores = [length qs; length ps]
    /\ length (data scores) = length qs
    /\ Forall (fun row => length row = length ps) (data scores)
    /\ dtype scores = Float32
    /\ forall i j, i < length qs -> j < length ps ->
         entry (data scores) i j = dot (nth i qs []) (nth j ps []).
Proof.
  intros Hqs Hps _ _.
  eexists. split; [now apply score_single_vector_eval|].
  cbv beta iota delta [shape dtype data].
  split; [reflexivity|]. split; [apply length_map|].
  split.
  { apply Forall_forall. intros row Hrow.
    apply in_map_iff in Hrow. destruct Hrow as [q [<- _]]. apply length_map. }
  split; [reflexivity|].
  intros i j Hi Hj.
  rewrite (entry_rows _ qs i j []) by assumption.
  now apply nth_map_in.
Qed.

(** C3 (amended). For non-empty inputs whose passages each have at least
    one token, and positive batch sizes b1 and b2, [score_multi_vector]
    yields the same score matrix for both, provided zero padding cannot
    change a per-token maximum: all passages have the same number of
    tokens, or every query token has a non-negative best dot product
    within every passage. Entry (i, j) is then the MaxSim of query i and
    passage j as handed in. *)
Theorem score_multi_vector_batch_invariant (qs ps : list Mat) b1 b2 dev :
  qs <> [] -> ps <> [] ->
  uniform_dim qs -> uniform_dim ps ->
  (0 < b1)%Z -> (0 < b2)%Z ->
  (forall p : Mat, In p ps -> p <> []) ->
  (forall p p' : Mat, In p ps -> In p' ps -> length p = length p')
  \/ (forall q p : Mat, In q qs -> In p ps -> best_match_nonneg q p) ->
  exists scores,
    score_multi_vector qs ps b1 dev = Ok scores
    /\ score_multi_vector qs ps b2 dev = Ok scores
    /\ forall i j, i < length qs -> j < length ps ->
         entry (data scores) i j = maxsim (nth i qs []) (nth j ps []).
Proof.
  intros Hqs Hps _ _ H1 H2 Hne Hcase.
  assert (Hrows : forall b, 0 < b ->
            map (score_row b ps) qs = map (fun q => map (maxsim q) ps) qs).
  { intros b Hb. apply map_ext_in. intros q Hq.
    apply score_row_unpadded; [assumption|assumption|].
    destruct Hcase as [Hsame|Hnonneg]; [now left|right].
    intros p Hp. now apply Hnonneg. }
  exists (mkTensor [length qs; length ps] CPU Float32
            (map (fun q => map (maxsim q) ps) qs)).
  split; [|split].
  - rewrite score_multi_vector_pos; try assumption.
    + now rewrite Hrows by lia.
    + apply tokens_give_positions; [lia|assumption].
  - rewrite score_multi_vector_pos; try assumption.
    + now rewrite Hrows by lia.
    + apply tokens_give_positions; [lia|assumption].
  - intros i j Hi Hj. cbv beta iota delta [data].
    rewrite (entry_rows _ qs i j []) by assumption.
    now apply nth_map_in.
Qed.

(** C5. On non-empty inputs that meet the preconditions, the result of
    [score_single_vector] and of [score_multi_vector] has exactly one row
    per query, and neither call ends in the AssertionError that guards
    this count. *)
Theorem row_count_is_query_count (qv pv : list Vec) (qs ps : list Mat)
    batch_size dev :
  qv <> [] -> pv <> [] -> uniform_vecs qv -> uniform_vecs pv ->
  qs <> [] -> ps <> [] -> uniform_dim qs -> uniform_dim ps ->
  (0 < batch_size)%Z ->
  has_positions (Z.to_nat batch_size) ps ->
  (exists scores,
      score_single_vector qv pv dev = Ok scores
      /\ size scores 0 = length qv
      /\ length (data scores) = length qv)
  /\ (exists scores,
      score_multi_vector qs ps batch_size dev = Ok scores
      /\ size scores 0 = length qs
      /\ length (data scores) = length qs)
  /\ (forall n m, score_single_vector qv pv dev <> Err (AssertionError n m))
  /\ (forall n m,
      score_multi_vector qs ps batch_size dev <> Err (AssertionError n m)).
Proof.
  intros Hqv Hpv _ _ Hqs Hps _ _ Hb Hpos.
  rewrite (score_single_vector_eval qv pv dev Hqv Hpv).
  rewrite (score_multi_vector_pos qs ps batch_size dev Hb Hqs Hps Hpos).
  repeat split.
  - eexists. split; [reflexivity|]. split; [reflexivity|]. apply length_map.
  - eexists. split; [reflexivity|]. split; [reflexivity|]. apply length_map.
  - discriminate.
  - discriminate.
Qed.

Lemma zero_extended_rows b ps (qs qs' : list Mat) :
  Forall2 zero_extended qs qs' ->
  map (score_row b ps) qs' = map (score_row b ps) qs.
Proof.
  induction 1 as [|q q' qs qs' Hq _ IH]; [reflexivity|].
  simpl. now rewrite IH, (score_row_zero_extended b ps q q' Hq).
Qed.

(** C9. A zero query token has maximum zero over the positions of any
    passage, so the padded rows of a query add nothing: entry (i, j) is the
    sum over the tokens of query i as handed in, and the result stays the
    same when queries are extended with trailing all-zero vectors. *)
Theorem zero_query_rows_add_nothing (qs qs' ps : list Mat) batch_size dev :
  qs <> [] -> ps <> [] ->
  uniform_dim qs -> uniform_dim ps ->
  (0 < batch_size)%Z ->
  has_positions (Z.to_nat batch_size) ps ->
  Forall2 zero_extended qs qs' ->
  (forall p : Mat, max_list (map (fun s => dot (repeat 0%Z D) s) p) = 0%Z)
  /\ exists scores,
       score_multi_vector qs ps batch_size dev = Ok scores
       /\ (forall i j, i < length qs -> j < length ps ->
             entry (data scores) i j
             = maxsim (nth i qs []) (padded (Z.to_nat batch_size) ps j))
       /\ score_multi_vector qs' ps batch_size dev = Ok scores.
Proof.
  intros Hqs Hps _ _ Hb Hpos Hext.
  split; [apply zero_token_max|].
  eexists. split; [now apply score_multi_vector_pos|]. split.
  - intros i j Hi Hj. cbv beta iota delta [data].
    rewrite (entry_rows _ qs i j []) by assumption.
    apply score_row_entry; [lia|assumption].
  - rewrite score_multi_vector_pos; try assumption.
    + rewrite (zero_extended_rows _ ps qs qs' Hext).
      now rewrite (Forall2_length Hext).
    + intros E. subst qs'. inversion Hext. now subst.
Qed.

(** C4. [score_single_vector], [score_multi_vector] and [get_topk_plaid]
    raise ValueError on an empty list of queries, and the two scoring
    functions raise ValueError on an empty list of passages, whatever the
    other arguments: no result comes back from an empty input. *)
Theorem empty_inputs_are_rejected :
  (forall pv dev,
      score_single_vector [] pv dev = Err (ValueError "No queries provided"))
  /\ (forall qv dev,
      exists msg, score_single_vector qv [] dev = Err (ValueError msg))
  /\ (forall ps batch_size dev,
      score_multi_vector [] ps batch_size dev
      = Err (ValueError "No queries provided"))
  /\ (forall qs batch_size dev,
      exists msg,
        score_multi_vector qs [] batch_size dev = Err (ValueError msg))
  /\ (forall idx k batch_size dev,
      get_topk_plaid [] idx k batch_size dev
      = Err (ValueError "No queries provided")).
Proof.
  split; [reflexivity|]. split.
  { intros qv dev. destruct qv as [|q qv].
    - now exists "No queries provided".
    - now exists "No passages provided". }
  split; [reflexivity|]. split.
  { intros qs batch_size dev. destruct qs as [|q qs].
    - now exists "No queries provided".
    - now exists "No passages provided". }
  reflexivity.
Qed.

(** C10. On non-empty inputs a batch size that is not positive makes
    [score_multi_vector] raise: zero is refused by [range], and a negative
    one leaves no batch, so that the final [torch.cat] has nothing to
    join. No score matrix is returned. *)
Theorem nonpositive_batch_size_raises (qs ps : list Mat) batch_size dev :
  qs <> [] -> ps <> [] ->
  (batch_size <= 0)%Z ->
  score_multi_vector qs ps batch_size dev
  = Err (if (batch_size =? 0)%Z
         then ValueError "range() arg 3 must not be zero"
         else RuntimeError "torch.cat(): expected a non-empty list of Tensors").
Proof.
  intros Hqs Hps Hb. unfold score_multi_vector.
  cbv zeta. rewrite (len_not_nil qs Hqs), (len_not_nil ps Hps).
  destruct (Z.eqb_spec batch_size 0) as [->|Hnz].
  - reflexivity.
  - unfold len at 1. rewrite py_range_neg by lia. reflexivity.
Qed.

(** C6 (amended). For a non-empty list of queries and a positive batch
    size, [get_topk_plaid] cuts the queries into consecutive batches of at
    most [batch_size] items, pads each one, hands it as 32-bit floats to
    the index's search with [k], and returns the list of what the searches
    returned, one element per batch in batch order. *)
Theorem get_topk_plaid_per_batch (qs : list Mat) idx k batch_size dev :
  qs <> [] -> uniform_dim qs ->
  (0 < batch_size)%Z ->
  get_topk_plaid qs idx k batch_size dev
  = Ok (map (fun c =>
               plaid_search idx
                 (mkTensor [length c; max_len c; D] (device_or_auto dev)
                    Float32 (map (pad_to (max_len c)) c)) k)
            (batches (Z.to_nat batch_size) qs))
  /\ concat (batches (Z.to_nat batch_size) qs) = qs
  /\ Forall (fun c => 0 < length c <= Z.to_nat batch_size)
            (batches (Z.to_nat batch_size) qs).
Proof.
  intros Hqs _ Hb.
  assert (Hbn : 0 < Z.to_nat batch_size) by lia.
  split; [|split].
  - rewrite <- (Z2Nat.id batch_size) at 1 by lia.
    now apply get_topk_plaid_eval.
  - now apply concat_batches.
  - apply Forall_forall. intros c Hc. split.
    + pose proof (batch_not_nil qs _ c Hbn Hc) as Hne.
      destruct c; [contradiction|simpl; lia].
    + now apply (batch_length_le qs).
Qed.

(** C8. With fast_plaid absent, loading the module succeeds and only logs
    a message; [create_plaid_index] then raises ImportError when called,
    and the exact scoring functions still return their scores. *)
Theorem missing_backend_is_detected_at_call (qv pv : list Vec)
    (qs ps docs : list Mat) batch_size dev :
  qv <> [] -> pv <> [] -> uniform_vecs qv -> uniform_vecs pv ->
  qs <> [] -> ps <> [] -> uniform_dim qs -> uniform_dim ps ->
  (0 < batch_size)%Z ->
  has_positions (Z.to_nat batch_size) ps ->
  exists g,
    load_module false = Ok g
    /\ search_bound g = false
    /\ length (logged_info g) = 1
    /\ create_plaid_index false g docs dev
       = Err (ImportError
                "FastPlaid is not installed. Please install it with `pip install fast-plaid`.")
    /\ is_Ok (score_single_vector qv pv dev)
    /\ is_Ok (score_multi_vector qs ps batch_size dev).
Proof.
  intros Hqv Hpv _ _ Hqs Hps _ _ Hb Hpos.
  eexists. split; [reflexivity|].
  split; [reflexivity|]. split; [reflexivity|]. split; [reflexivity|].
  rewrite (score_single_vector_eval qv pv dev Hqv Hpv).
  rewrite (score_multi_vector_pos qs ps batch_size dev Hb Hqs Hps Hpos).
  split; exact I.
Qed.

(** ** Every outcome of [score_multi_vector] *)

Lemma for_each_err {A B : Type} (body : A -> result B) e l :
  (forall x, In x l -> (exists y, body x = Ok y) \/ body x = Err e) ->
  (exists x, In x l /\ body x = Err e) ->
  for_each body l = Err e.
Proof.
  induction l as [|x r IH]; intros Hall [z [Hz Ez]]; [contradiction|].
  simpl. destruct (Hall x (or_introl eq_refl)) as [[y Ey]|Ex].
  - rewrite Ey. simpl. rewrite IH; [reflexivity| |].
    + intros w Hw. apply Hall. now right.
    + destruct Hz as [->|Hz]; [congruence|]. now exists z.
  - now rewrite Ex.
Qed.

Lemma passage_batch_no_positions dev (qs_batch : Tensor Cube) (cp : list Mat) :
  cp <> [] -> max_len cp = 0 ->
  (ps_batch <- pad_sequence cp ;;
   let ps_batch := to_device dev ps_batch in
   maxima <- max_dim3 (einsum_bnd_csd_bcns qs_batch ps_batch) ;;
   Ok (sum_dim2 maxima))
  = Err (IndexError "max(): Expected reduction dim 3 to have non-zero size.").
Proof.
  intros Hne Hlen. rewrite (pad_sequence_ok cp Hne).
  cbv beta iota delta [bind to_device max_dim3 einsum_bnd_csd_bcns size
                       shape device dtype data nth].
  now rewrite Hlen.
Qed.

Lemma positions_or_not b (ps : list Mat) :
  0 < b ->
  has_positions b ps
  \/ exists cp, In cp (batches b ps) /\ max_len cp = 0.
Proof.
  intros Hb.
  assert (Hdec : forall l : list (list Mat),
            (forall cp, In cp l -> 0 < max_len cp)
            \/ exists cp, In cp l /\ max_len cp = 0).
  { induction l as [|c l IH]; [left; intros cp []|].
    destruct (Nat.eq_dec (max_len c) 0) as [E|N].
    - right. exists c. split; [now left|assumption].
    - destruct IH as [Hall|[cp [Hin E]]].
      + left. intros cp [<-|Hin]; [lia|now apply Hall].
      + right. exists cp. split; [now right|assumption]. }
  destruct (Hdec (batches b ps)) as [Hall|Hex]; [left|now right].
  intros j Hj. apply Hall. now apply batch_of_in_batches.
Qed.

Lemma batch_in_batches {A : Type} (l : list A) b k :
  k < (length l + b - 1) / b ->
  In (firstn b (skipn (k * b) l)) (batches b l).
Proof.
  intros Hk. unfold batches. apply in_map_iff. exists k.
  split; [reflexivity|]. apply in_seq. lia.
Qed.

Lemma query_batch_no_positions dev b (ps cq : list Mat) :
  0 < b -> ps <> [] -> cq <> [] ->
  (exists cp, In cp (batches b ps) /\ max_len cp = 0) ->
  (qs_batch <- pad_sequence cq ;;
   let qs_batch := to_device dev qs_batch in
   p_starts <- py_range 0 (len ps) (Z.of_nat b) ;;
   scores_batch <-
     for_each (fun j =>
       ps_batch <- pad_sequence (py_slice ps j (j + Z.of_nat b)) ;;
       let ps_batch := to_device dev ps_batch in
       maxima <- max_dim3 (einsum_bnd_csd_bcns qs_batch ps_batch) ;;
       Ok (sum_dim2 maxima)) p_starts ;;
   scores_batch <- torch_cat_dim1 scores_batch ;;
   Ok (cpu scores_batch))
  = Err (IndexError "max(): Expected reduction dim 3 to have non-zero size.").
Proof.
  intros Hb Hps Hcq [cp0 [Hin0 Hzero]].
  rewrite (pad_sequence_ok cq Hcq).
  change (bind (Ok ?t) ?k) with (k t). cbv beta zeta.
  unfold len. rewrite py_range_pos by assumption.
  change (bind (Ok ?t) ?k) with (k t). cbv beta.
  rewrite for_each_map.
  rewrite (for_each_err _
    (IndexError "max(): Expected reduction dim 3 to have non-zero size.")).
  - reflexivity.
  - intros k Hk. apply in_seq in Hk.
    assert (Hkb : k * b < length ps) by (apply ceil_div_bound; [assumption|lia]).
    assert (Hin : In (firstn b (skipn (k * b) ps)) (batches b ps))
      by (apply batch_in_batches; lia).
    pose proof (batch_not_nil ps b _ Hb Hin) as Hne.
    rewrite py_slice_batch by lia.
    destruct (Nat.eq_dec (max_len (firstn b (skipn (k * b) ps))) 0) as [E|N].
    + right. now apply passage_batch_no_positions.
    + left. eexists. apply passage_batch_scores; [assumption|lia].
  - unfold batches in Hin0. apply in_map_iff in Hin0.
    destruct Hin0 as [k [<- Hk]]. apply in_seq in Hk.
    assert (Hkb : k * b < length ps) by (apply ceil_div_bound; [assumption|lia]).
    exists k. split; [apply in_seq; lia|].
    rewrite py_slice_batch by lia.
    apply passage_batch_no_positions; [|assumption].
    apply (batch_not_nil ps b); [assumption|]. apply batch_in_batches. lia.
Qed.

Lemma score_multi_vector_no_positions (qs ps : list Mat) b dev :
  0 < b -> qs <> [] -> ps <> [] ->
  (exists cp, In cp (batches b ps) /\ max_len cp = 0) ->
  score_multi_vector qs ps (Z.of_nat b) dev
  = Err (IndexError "max(): Expected reduction dim 3 to have non-zero size.").
Proof.
  intros Hb Hqs Hps Hex. unfold score_multi_vector.
  cbv zeta. rewrite (len_not_nil qs Hqs), (len_not_nil ps Hps).
  unfold len at 1. rewrite py_range_pos by assumption.
  change (bind (Ok ?t) ?k) with (k t). cbv beta.
  rewrite for_each_map.
  assert (Hbody : forall k, In k (seq 0 ((length qs + b - 1) / b)) ->
    (fun x : nat =>
       qs_batch <- pad_sequence
                     (py_slice qs (Z.of_nat (x * b)) (Z.of_nat (x * b) + Z.of_nat b)) ;;
       let qs_batch := to_device (device_or_auto dev) qs_batch in
       p_starts <- py_range 0 (len ps) (Z.of_nat b) ;;
       scores_batch <-
         for_each (fun j =>
           ps_batch <- pad_sequence (py_slice ps j (j + Z.of_nat b)) ;;
           let ps_batch := to_device (device_or_auto dev) ps_batch in
           maxima <- max_dim3 (einsum_bnd_csd_bcns qs_batch ps_batch) ;;
           Ok (sum_dim2 maxima)) p_starts ;;
       scores_batch <- torch_cat_dim1 scores_batch ;;
       Ok (cpu scores_batch)) k
    = Err (IndexError "max(): Expected reduction dim 3 to have non-zero size.")).
  { intros k Hk. apply in_seq in Hk. cbv beta.
    assert (Hkb : k * b < length qs) by (apply ceil_div_bound; [assumption|lia]).
    rewrite py_slice_batch by lia.
    apply query_batch_no_positions; try assumption.
    apply (batch_not_nil qs b); [assumption|]. apply batch_in_batches. lia. }
  rewrite (for_each_err _
    (IndexError "max(): Expected reduction dim 3 to have non-zero size.")).
  - reflexivity.
  - intros k Hk. right. now apply Hbody.
  - exists 0. assert (H0 : In 0 (seq 0 ((length qs + b - 1) / b))).
    { apply in_seq. split; [lia|]. simpl. apply ceil_div_pos; [assumption|].
      destruct qs; [contradiction|simpl; lia]. }
    split; [assumption|now apply Hbody].
Qed.

Lemma nonpositive_batch_outcome (qs ps : list Mat) batch_size dev :
  qs <> [] -> ps <> [] ->
  (batch_size <= 0)%Z ->
  score_multi_vector qs ps batch_size dev
  = Err (if (batch_size =? 0)%Z
         then ValueError "range() arg 3 must not be zero"
         else RuntimeError "torch.cat(): expected a non-empty list of Tensors").
Proof.
  intros Hqs Hps Hb. unfold score_multi_vector.
  cbv zeta. rewrite (len_not_nil qs Hqs), (len_not_nil ps Hps).
  destruct (Z.eqb_spec batch_size 0) as [->|Hnz]; [reflexivity|].
  unfold len at 1. rewrite py_range_neg by lia. reflexivity.
Qed.

(** The outcome of [score_multi_vector] in each of its cases. *)
Lemma score_multi_vector_outcome (qs ps : list Mat) batch_size dev :
  (exists msg, score_multi_vector qs ps batch_size dev = Err (ValueError msg)
               /\ (qs = [] \/ ps = [] \/ batch_size = 0%Z))
  \/ (exists msg, score_multi_vector qs ps batch_size dev = Err (RuntimeError msg)
                  /\ (batch_size < 0)%Z)
  \/ (exists msg, score_multi_vector qs ps batch_size dev = Err (IndexError msg)
                  /\ ~ has_positions (Z.to_nat batch_size) ps)
  \/ (score_multi_vector qs ps batch_size dev
        = Ok (mkTensor [length qs; length ps] CPU Float32
                (map (score_row (Z.to_nat batch_size) ps) qs))
      /\ qs <> [] /\ ps <> [] /\ (0 < batch_size)%Z
      /\ has_positions (Z.to_nat batch_size) ps).
Proof.
  destruct qs as [|q0 qs'].
  { left. exists "No queries provided". split; [reflexivity|now left]. }
  destruct ps as [|p0 ps'].
  { left. exists "No passages provided". split; [reflexivity|right; now left]. }
  set (qs := q0 :: qs'). set (ps := p0 :: ps').
  assert (Hqs : qs <> []) by discriminate.
  assert (Hps : ps <> []) by discriminate.
  destruct (Z.lt_trichotomy batch_size 0) as [Hneg|[Hz|Hpos]].
  - right. left. eexists. split; [|assumption].
    rewrite (nonpositive_batch_outcome qs ps batch_size dev Hqs Hps) by lia.
    destruct (Z.eqb_spec batch_size 0); [lia|reflexivity].
  - left. eexists. split; [|right; now right].
    rewrite (nonpositive_batch_outcome qs ps batch_size dev Hqs Hps) by lia.
    destruct (Z.eqb_spec batch_size 0); [reflexivity|lia].
  - assert (Hb : 0 < Z.to_nat batch_size) by lia.
    destruct (positions_or_not (Z.to_nat batch_size) ps Hb) as [Hp|Hex].
    + right. right. right.
      split; [now apply score_multi_vector_pos|]. now repeat split.
    + right. right. left. eexists. split.
      * rewrite <- (Z2Nat.id batch_size) at 1 by lia.
        now apply score_multi_vector_no_positions.
      * intros Hp. destruct Hex as [cp [Hin Hzero]].
        pose proof (has_positions_batch _ ps cp Hb Hp Hin). lia.
Qed.

(** X1. Neither scoring function ever ends in the AssertionError that
    guards the number of rows, whatever it is called with. *)
Theorem row_count_assertion_never_fails (qv pv : list Vec) (qs ps : list Mat)
    batch_size dev n m :
  score_single_vector qv pv dev <> Err (AssertionError n m)
  /\ score_multi_vector qs ps batch_size dev <> Err (AssertionError n m).
Proof.
  split.
  - destruct qv as [|q qv]; [discriminate|].
    destruct pv as [|p pv]; [discriminate|].
    rewrite score_single_vector_eval; discriminate.
  - destruct (score_multi_vector_outcome qs ps batch_size dev)
      as [[msg [E _]]|[[msg [E _]]|[[msg [E _]]|[E _]]]];
      rewrite E; discriminate.
Qed.

(** X2. When the batch of some passage holds no token at all, the maximum
    over passage positions has nothing to range over and
    [score_multi_vector] raises IndexError. *)
Theorem tokenless_passage_batch_raises (qs ps : list Mat) batch_size dev j :
  qs <> [] -> ps <> [] ->
  uniform_dim qs -> uniform_dim ps ->
  (0 < batch_size)%Z ->
  j < length ps ->
  max_len (batch_of (Z.to_nat batch_size) ps j) = 0 ->
  score_multi_vector qs ps batch_size dev
  = Err (IndexError "max(): Expected reduction dim 3 to have non-zero size.").
Proof.
  intros Hqs Hps _ _ Hb Hj Hzero.
  rewrite <- (Z2Nat.id batch_size) at 1 by lia.
  apply score_multi_vector_no_positions; [lia|assumption|assumption|].
  exists (batch_of (Z.to_nat batch_size) ps j). split; [|assumption].
  apply batch_of_in_batches; [lia|assumption].
Qed.

(** X3. On embeddings of one dimension, and failures of the runtime
    (a missing device, memory) apart, [score_multi_vector] returns a score
    matrix exactly when both lists are non-empty, the batch size is positive
    and every batch of passages holds at least one token. *)
Theorem score_multi_vector_returns_iff (qs ps : list Mat) batch_size dev :
  uniform_dim qs -> uniform_dim ps ->
  (is_Ok (score_multi_vector qs ps batch_size dev)
   <-> qs <> [] /\ ps <> [] /\ (0 < batch_size)%Z
       /\ has_positions (Z.to_nat batch_size) ps).
Proof.
  intros _ _.
  destruct (score_multi_vector_outcome qs ps batch_size dev)
    as [[msg [E H]]|[[msg [E H]]|[[msg [E H]]|[E H]]]]; rewrite E; simpl.
  - split; [contradiction|]. intros [Hq [Hp [Hb _]]].
    destruct H as [H|[H|H]]; [now apply Hq|now apply Hp|lia].
  - split; [contradiction|]. intros [_ [_ [Hb _]]]. lia.
  - split; [contradiction|]. intros [_ [_ [_ Hpos]]]. now apply H.
  - split; [intros _; exact H|intros _; exact I].
Qed.

(** X4. Whatever [score_multi_vector] returns is on the host, of element
    type 32-bit float and of shape (|Q|, |P|), with |Q| rows of |P| entries
    each. *)
Theorem score_multi_vector_result_layout (qs ps : list Mat) batch_size dev
    scores :
  uniform_dim qs -> uniform_dim ps ->
  score_multi_vector qs ps batch_size dev = Ok scores ->
  device scores = CPU
  /\ dtype scores = Float32
  /\ shape scores = [length qs; length ps]
  /\ length (data scores) = length qs
  /\ Forall (fun row => length row = length ps) (data scores).
Proof.
  intros _ _ Hres.
  destruct (score_multi_vector_outcome qs ps batch_size dev)
    as [[msg [E _]]|[[msg [E _]]|[[msg [E _]]|[E [_ [_ [Hb _]]]]]]];
    rewrite E in Hres; try discriminate.
  inversion Hres. subst scores. cbv beta iota delta [device dtype shape data].
  repeat split.
  - apply length_map.
  - apply Forall_forall. intros row Hrow.
    apply in_map_iff in Hrow. destruct Hrow as [q [<- _]].
    apply score_row_length. lia.
Qed.

(** X5. Whatever [score_single_vector] returns is on the device asked for,
    or on the automatic one when none is given: it is not moved to the
    host. *)
Theorem score_single_vector_result_device (qv pv : list Vec) dev scores :
  uniform_vecs qv -> uniform_vecs pv ->
  score_single_vector qv pv dev = Ok scores ->
  device scores = match dev with Some d => d | None => auto_device end
  /\ dtype scores = Float32.
Proof.
  intros _ _ Hres.
  destruct qv as [|q qv]; [discriminate|].
  destruct pv as [|p pv]; [discriminate|].
  rewrite score_single_vector_eval in Hres by discriminate.
  inversion Hres. subst scores. now split.
Qed.

(** ** What zero padding does to a score *)

Lemma max_pad_clamped (qn : Vec) (p : Mat) k :
  p <> [] -> 0 < k ->
  max_list (map (fun ps => dot qn ps) (p ++ repeat (repeat 0%Z D) k))
  = Z.max 0 (max_list (map (fun ps => dot qn ps) p)).
Proof.
  intros Hp Hk. rewrite map_app, max_list_app.
  - rewrite map_repeat, dot_zero_r, max_list_zeros. apply Z.max_comm.
  - destruct p; [contradiction|discriminate].
  - destruct k; [lia|discriminate].
Qed.

Lemma maxsim_padded_clamped (q p : Mat) n :
  p <> [] -> length p < n ->
  maxsim q (pad_to n p) = clamped_maxsim q p.
Proof.
  intros Hp Hn. unfold maxsim, clamped_maxsim, pad_to. f_equal.
  apply map_ext. intros qn. apply max_pad_clamped; [assumption|lia].
Qed.

Lemma sum_list_le (f g : Vec -> Z) (q : Mat) :
  (forall qn, (f qn <= g qn)%Z) ->
  (sum_list (map f q) <= sum_list (map g q))%Z.
Proof.
  intros H. induction q as [|x q IH]; simpl; [lia|].
  specialize (H x). lia.
Qed.

Lemma maxsim_le_clamped (q p : Mat) : (maxsim q p <= clamped_maxsim q p)%Z.
Proof.
  unfold maxsim, clamped_maxsim. apply sum_list_le. intros qn. lia.
Qed.

Lemma clamped_maxsim_nonneg (q p : Mat) : (0 <= clamped_maxsim q p)%Z.
Proof.
  unfold clamped_maxsim.
  induction q as [|x q IH]; simpl; [lia|].
  change (fold_right Z.add 0%Z ?l) with (sum_list l) in *. lia.
Qed.

(** The score of a pair in terms of the passage as handed in. *)
Lemma padded_passage_score (q : Mat) b (ps : list Mat) j :
  nth j ps [] <> [] ->
  maxsim q (padded b ps j)
  = if length (nth j ps []) <? max_len (batch_of b ps j)
    then clamped_maxsim q (nth j ps [])
    else maxsim q (nth j ps []).
Proof.
  intros Hne. unfold padded.
  destruct (Nat.ltb_spec (length (nth j ps [])) (max_len (batch_of b ps j)))
    as [Hlt|Hge].
  - now apply maxsim_padded_clamped.
  - now rewrite pad_to_full.
Qed.

(** X6. A passage that is the longest of its batch scores the MaxSim of the
    pair as handed in; a shorter one is padded with zero vectors, and every
    per-token maximum is then raised to zero at least. *)
Theorem padded_passage_maxima_are_clamped (qs ps : list Mat) batch_size dev :
  qs <> [] -> ps <> [] ->
  uniform_dim qs -> uniform_dim ps ->
  (0 < batch_size)%Z ->
  has_positions (Z.to_nat batch_size) ps ->
  exists scores,
    score_multi_vector qs ps batch_size dev = Ok scores
    /\ forall i j, i < length qs -> j < length ps ->
         nth j ps [] <> [] ->
         entry (data scores) i j
         = if length (nth j ps [])
              <? max_len (batch_of (Z.to_nat batch_size) ps j)
           then clamped_maxsim (nth i qs []) (nth j ps [])
           else maxsim (nth i qs []) (nth j ps []).
Proof.
  intros Hqs Hps _ _ Hb Hpos.
  eexists. split; [now apply score_multi_vector_pos|].
  intros i j Hi Hj Hne. cbv beta iota delta [data].
  rewrite (entry_rows _ qs i j []) by assumption.
  rewrite score_row_entry by (assumption || lia).
  now apply padded_passage_score.
Qed.

(** X7. Padding never lowers a score: every entry is at least the MaxSim of
    the pair as handed in, and the score of a passage shorter than the
    longest of its batch is never negative. *)
Theorem padding_never_lowers_a_score (qs ps : list Mat) batch_size dev :
  qs <> [] -> ps <> [] ->
  uniform_dim qs -> uniform_dim ps ->
  (0 < batch_size)%Z ->
  has_positions (Z.to_nat batch_size) ps ->
  exists scores,
    score_multi_vector qs ps batch_size dev = Ok scores
    /\ forall i j, i < length qs -> j < length ps ->
         nth j ps [] <> [] ->
         (maxsim (nth i qs []) (nth j ps []) <= entry (data scores) i j)%Z
         /\ (length (nth j ps [])
               < max_len (batch_of (Z.to_nat batch_size) ps j) ->
             (0 <= entry (data scores) i j)%Z).
Proof.
  intros Hqs Hps _ _ Hb Hpos.
  eexists. split; [now apply score_multi_vector_pos|].
  intros i j Hi Hj Hne. cbv beta iota delta [data].
  rewrite (entry_rows _ qs i j []) by assumption.
  rewrite score_row_entry by (assumption || lia).
  rewrite padded_passage_score by assumption.
  destruct (Nat.ltb_spec (length (nth j ps []))
              (max_len (batch_of (Z.to_nat batch_size) ps j))) as [Hlt|Hge].
  - split; [apply maxsim_le_clamped|intros _; apply clamped_maxsim_nonneg].
  - split; [lia|intros Hlt; lia].
Qed.

(** ** Batch sizes beyond the number of passages *)

Lemma batches_whole {A : Type} (l : list A) b :
  l <> [] -> length l <= b -> batches b l = [l].
Proof.
  intros Hne Hle. unfold batches.
  assert (Hn : 0 < length l) by (destruct l; [contradiction|simpl; lia]).
  replace ((length l + b - 1) / b) with 1.
  - simpl. now rewrite firstn_all2.
  - apply Nat.div_unique with (r := length l - 1); lia.
Qed.

Lemma score_multi_vector_one_passage_batch (qs ps : list Mat) b dev :
  qs <> [] -> ps <> [] -> length ps <= b ->
  score_multi_vector qs ps (Z.of_nat b) dev
  = if max_len ps =? 0
    then Err (IndexError "max(): Expected reduction dim 3 to have non-zero size.")
    else Ok (mkTensor [length qs; length ps] CPU Float32
               (map (fun q => map (fun p => maxsim q (pad_to (max_len ps) p)) ps)
                    qs)).
Proof.
  intros Hqs Hps Hle.
  assert (Hb : 0 < b) by (destruct ps; [contradiction|simpl in Hle; lia]).
  pose proof (batches_whole ps b Hps Hle) as Hwhole.
  destruct (Nat.eqb_spec (max_len ps) 0) as [E|N].
  - apply score_multi_vector_no_positions; try assumption.
    exists ps. rewrite Hwhole. split; [now left|assumption].
  - rewrite score_multi_vector_eval; try assumption.
    + f_equal. f_equal. apply map_ext. intros q.
      unfold score_row. rewrite Hwhole. simpl. apply app_nil_r.
    + intros j Hj.
      pose proof (batch_of_in_batches ps b j Hb Hj) as Hin.
      rewrite Hwhole in Hin. destruct Hin as [<-|[]]. lia.
Qed.

(** X8. Once the batch size reaches the number of passages the result no
    longer depends on it: all passages share one batch, and each is padded
    to the longest passage of the call. *)
Theorem batch_size_beyond_passages_is_irrelevant (qs ps : list Mat)
    b1 b2 dev :
  qs <> [] -> ps <> [] ->
  uniform_dim qs -> uniform_dim ps ->
  (len ps <= b1)%Z -> (len ps <= b2)%Z ->
  score_multi_vector qs ps b1 dev = score_multi_vector qs ps b2 dev
  /\ (0 < max_len ps ->
      score_multi_vector qs ps b1 dev
      = Ok (mkTensor [length qs; length ps] CPU Float32
              (map (fun q => map (fun p => maxsim q (pad_to (max_len ps) p)) ps)
                   qs))).
Proof.
  intros Hqs Hps _ _ H1 H2. unfold len in H1, H2.
  assert (E1 : b1 = Z.of_nat (Z.to_nat b1)) by lia.
  assert (E2 : b2 = Z.of_nat (Z.to_nat b2)) by lia.
  rewrite E1, E2.
  rewrite !score_multi_vector_one_passage_batch by (assumption || lia).
  split; [reflexivity|].
  intros Hpos. destruct (Nat.eqb_spec (max_len ps) 0); [lia|reflexivity].
Qed.

(** ** Queries are scored one by one *)

(** X9. The scores of a query depend on the passages and the batch size
    only: not on the other queries of the call, nor on its place among
    them. *)
Theorem query_scores_are_independent (qs qs' ps : list Mat) batch_size dev
    i i' :
  qs <> [] -> qs' <> [] -> ps <> [] ->
  uniform_dim qs -> uniform_dim qs' -> uniform_dim ps ->
  (0 < batch_size)%Z ->
  has_positions (Z.to_nat batch_size) ps ->
  i < length qs -> i' < length qs' ->
  nth i qs [] = nth i' qs' [] ->
  exists scores scores',
    score_multi_vector qs ps batch_size dev = Ok scores
    /\ score_multi_vector qs' ps batch_size dev = Ok scores'
    /\ nth i (data scores) [] = nth i' (data scores') [].
Proof.
  intros Hqs Hqs' Hps _ _ _ Hb Hpos Hi Hi' Heq.
  eexists. eexists.
  split; [now apply score_multi_vector_pos|].
  split; [now apply score_multi_vector_pos|].
  cbv beta iota delta [data].
  transitivity (score_row (Z.to_nat batch_size) ps (nth i qs [])).
  - now apply (nth_map_in (score_row (Z.to_nat batch_size) ps) qs i [] []).
  - rewrite Heq. symmetry.
    now apply (nth_map_in (score_row (Z.to_nat batch_size) ps) qs' i' [] []).
Qed.

(** X10. Scores add up over the tokens of a query: the query made of the
    tokens of [q1] followed by those of [q2] scores, against every passage,
    the sum of what [q1] and [q2] score. *)
Theorem scores_add_over_query_tokens (q1 q2 : Mat) (ps : list Mat)
    batch_size dev :
  ps <> [] ->
  uniform_dim [q1; q2] -> uniform_dim ps ->
  (0 < batch_size)%Z ->
  has_positions (Z.to_nat batch_size) ps ->
  exists s s1 s2,
    score_multi_vector [q1 ++ q2] ps batch_size dev = Ok s
    /\ score_multi_vector [q1] ps batch_size dev = Ok s1
    /\ score_multi_vector [q2] ps batch_size dev = Ok s2
    /\ forall j, j < length ps ->
         entry (data s) 0 j
         = (entry (data s1) 0 j + entry (data s2) 0 j)%Z.
Proof.
  intros Hps _ _ Hb Hpos.
  eexists. eexists. eexists.
  split; [apply score_multi_vector_pos; (assumption || discriminate)|].
  split; [apply score_multi_vector_pos; (assumption || discriminate)|].
  split; [apply score_multi_vector_pos; (assumption || discriminate)|].
  intros j Hj. cbv beta iota delta [data]. unfold entry. simpl.
  rewrite !score_row_entry by (assumption || lia).
  apply maxsim_app.
Qed.

(** X11. A query without any token scores zero against every passage. *)
Theorem tokenless_query_scores_zero (qs ps : list Mat) batch_size dev i :
  qs <> [] -> ps <> [] ->
  uniform_dim qs -> uniform_dim ps ->
  (0 < batch_size)%Z ->
  has_positions (Z.to_nat batch_size) ps ->
  i < length qs -> nth i qs [] = [] ->
  exists scores,
    score_multi_vector qs ps batch_size dev = Ok scores
    /\ forall j, j < length ps -> entry (data scores) i j = 0%Z.
Proof.
  intros Hqs Hps _ _ Hb Hpos Hi Hempty.
  eexists. split; [now apply score_multi_vector_pos|].
  intros j Hj. cbv beta iota delta [data].
  rewrite (entry_rows _ qs i j []) by assumption.
  rewrite score_row_entry by (assumption || lia).
  now rewrite Hempty.
Qed.

(** ** Single vectors *)

Lemma dot_comm (u v : Vec) : dot u v = dot v u.
Proof.
  revert v. induction u as [|x u IH]; intros [|y v]; simpl; try reflexivity.
  rewrite IH. lia.
Qed.

Lemma maxsim_single_tokens (u v : Vec) :
  maxsim (single_token u) (single_token v) = dot u v.
Proof. unfold maxsim, single_token. simpl. lia. Qed.

(** X12. On embeddings of one token each, [score_multi_vector] computes
    what [score_single_vector] computes on the tokens: the same shape and
    the same entries, for every positive batch size. *)
Theorem single_token_embeddings_score_as_vectors (qv pv : list Vec)
    batch_size dev dev' :
  qv <> [] -> pv <> [] ->
  uniform_vecs qv -> uniform_vecs pv ->
  (0 < batch_size)%Z ->
  exists s m,
    score_single_vector qv pv dev = Ok s
    /\ score_multi_vector (map single_token qv) (map single_token pv)
         batch_size dev' = Ok m
    /\ shape m = shape s
    /\ data m = data s.
Proof.
  intros Hqv Hpv _ _ Hb.
  assert (Hne : forall p : Mat, In p (map single_token pv) -> p <> []).
  { intros p Hp. apply in_map_iff in Hp. destruct Hp as [v [<- _]]. discriminate. }
  eexists. eexists.
  split; [now apply score_single_vector_eval|].
  split.
  { apply score_multi_vector_pos; try assumption.
    - destruct qv; [contradiction|discriminate].
    - destruct pv; [contradiction|discriminate].
    - apply tokens_give_positions; [lia|assumption]. }
  cbv beta iota delta [shape data]. split.
  - now rewrite !length_map.
  - rewrite map_map. apply map_ext. intros u.
    rewrite score_row_unpadded; [|lia|assumption|].
    + rewrite map_map. apply map_ext. intros v. apply maxsim_single_tokens.
    + left. intros p p' Hp Hp'.
      apply in_map_iff in Hp. destruct Hp as [v [<- _]].
      apply in_map_iff in Hp'. destruct Hp' as [v' [<- _]]. reflexivity.
Qed.

(** X13. Exchanging the queries and the passages of [score_single_vector]
    transposes the score matrix. *)
Theorem score_single_vector_transposes (qv pv : list Vec) dev :
  qv <> [] -> pv <> [] ->
  uniform_vecs qv -> uniform_vecs pv ->
  exists s t,
    score_single_vector qv pv dev = Ok s
    /\ score_single_vector pv qv dev = Ok t
    /\ shape t = rev (shape s)
    /\ forall i j, i < length qv -> j < length pv ->
         entry (data s) i j = entry (data t) j i.
Proof.
  intros Hqv Hpv _ _.
  eexists. eexists.
  split; [now apply score_single_vector_eval|].
  split; [now apply score_single_vector_eval|].
  split; [reflexivity|].
  intros i j Hi Hj. cbv beta iota delta [data].
  rewrite (entry_rows _ qv i j []) by assumption.
  rewrite (entry_rows _ pv j i []) by assumption.
  rewrite (nth_map_in (fun p => dot (nth i qv []) p) pv j [] 0%Z) by assumption.
  rewrite (nth_map_in (fun p => dot (nth j pv []) p) qv i [] 0%Z) by assumption.
  apply dot_comm.
Qed.

(** ** The index *)

(** X14. [get_topk_plaid] refuses a batch size of zero, but with a negative
    one it visits no batch and returns the empty list without a search. *)
Theorem get_topk_plaid_nonpositive_batch (qs : list Mat) idx k batch_size dev :
  qs <> [] -> uniform_dim qs ->
  (batch_size <= 0)%Z ->
  get_topk_plaid qs idx k batch_size dev
  = if (batch_size =? 0)%Z
    then Err (ValueError "range() arg 3 must not be zero")
    else Ok [].
Proof.
  intros Hqs _ Hb. unfold get_topk_plaid.
  cbv zeta. rewrite (len_not_nil qs Hqs).
  destruct (Z.eqb_spec batch_size 0) as [->|Hnz]; [reflexivity|].
  unfold len. rewrite py_range_neg by lia. reflexivity.
Qed.

(** X15. [get_topk_plaid] returns as many elements as there are batches.
    When the index answers each query of a batch on its own, joining these
    elements gives one answer per query in the order of the queries: the
    answer to the query as padded within its batch. *)
Theorem get_topk_plaid_joined (qs : list Mat) idx k batch_size dev answer :
  qs <> [] -> uniform_dim qs ->
  (0 < batch_size)%Z ->
  answers_row_by_row idx answer ->
  exists r,
    get_topk_plaid qs idx k batch_size dev = Ok r
    /\ length r = (length qs + Z.to_nat batch_size - 1) / Z.to_nat batch_size
    /\ length (concat r) = length qs
    /\ forall i, i < length qs ->
         nth i (concat r) []
         = answer k (padded (Z.to_nat batch_size) qs i).
Proof.
  intros Hqs _ Hb Hrows.
  assert (Hbn : 0 < Z.to_nat batch_size) by lia.
  eexists. split.
  { rewrite <- (Z2Nat.id batch_size) at 1 by lia.
    now apply get_topk_plaid_eval. }
  assert (Hjoin :
    map (fun c : list Mat =>
           plaid_search idx
             (mkTensor [length c; max_len c; D] (device_or_auto dev) Float32
                (map (pad_to (max_len c)) c)) k)
        (batches (Z.to_nat batch_size) qs)
    = map (fun c => map (fun q => answer k (pad_to (max_len c) q)) c)
          (batches (Z.to_nat batch_size) qs)).
  { apply map_ext. intros c. rewrite Hrows.
    cbv beta iota delta [data]. apply map_map. }
  split; [|split].
  - unfold batches. now rewrite !length_map, length_seq.
  - rewrite Hjoin, length_concat, map_map.
    rewrite (map_ext _ (@length Mat)) by (intros; apply length_map).
    rewrite <- length_concat. now rewrite concat_batches.
  - intros i Hi. rewrite Hjoin. unfold padded.
    now apply (nth_concat_batches
                 (fun c q => answer k (pad_to (max_len c) q))
                 qs (Z.to_nat batch_size) i [] []).
Qed.


(** X17. With the package present, [create_plaid_index] builds a fresh
    index from one tensor per passage, in the order given: each passage as
    it is, without padding, as 32-bit floats on the compute device. An
    empty list of passages is handed over as it is. *)
Theorem create_plaid_index_hands_over_each_passage (docs : list Mat) dev :
  uniform_dim docs ->
  exists g tensors,
    load_module true = Ok g
    /\ create_plaid_index true g docs dev
       = Ok (plaid_create (FastPlaid "index") tensors)
    /\ length tensors = length docs
    /\ map (@data Mat) tensors = docs
    /\ Forall (fun t => shape t = [length (data t); D]
                        /\ dtype t = Float32
                        /\ device t = device_or_auto dev) tensors.
Proof.
  intros _. eexists. eexists.
  split; [reflexivity|]. split; [reflexivity|].
  split; [apply length_map|]. split.
  - rewrite map_map. cbv beta iota delta [data to_dtype to_device as_tensor].
    apply map_id.
  - apply Forall_forall. intros t Ht.
    apply in_map_iff in Ht. destruct Ht as [d [<- _]].
    repeat split.
Qed.

(** ** Lists padded beforehand *)

Lemma length_pad_to n (s : Mat) : length s <= n -> length (pad_to n s) = n.
Proof.
  intros H. unfold pad_to. rewrite length_app, repeat_length. lia.
Qed.

(** X18. Lists padded beforehand to their longest item, the second form
    the docstring allows, score for every positive batch size what the
    lists as they are score when all passages share one batch. *)
Theorem prepadded_lists_score_as_one_batch (qs ps : list Mat)
    batch_size whole dev :
  qs <> [] -> ps <> [] ->
  uniform_dim qs -> uniform_dim ps ->
  (0 < batch_size)%Z ->
  (len ps <= whole)%Z ->
  0 < max_len ps ->
  score_multi_vector (map (pad_to (max_len qs)) qs)
                     (map (pad_to (max_len ps)) ps) batch_size dev
  = score_multi_vector qs ps whole dev.
Proof.
  intros Hqs Hps _ _ Hb Hwhole Hlen. unfold len in Hwhole.
  assert (Hb' : 0 < Z.to_nat batch_size) by lia.
  assert (Hplen : forall p : Mat, In p (map (pad_to (max_len ps)) ps) ->
                    length p = max_len ps).
  { intros p Hp. apply in_map_iff in Hp. destruct Hp as [p0 [<- Hin]].
    apply length_pad_to. now apply max_len_ge. }
  assert (Hpne : forall p : Mat, In p (map (pad_to (max_len ps)) ps) -> p <> []).
  { intros p Hp E. specialize (Hplen p Hp). subst p. simpl in Hplen. lia. }
  replace whole with (Z.of_nat (Z.to_nat whole)) by lia.
  rewrite score_multi_vector_one_passage_batch by (assumption || lia).
  destruct (Nat.eqb_spec (max_len ps) 0) as [E|_]; [lia|].
  rewrite score_multi_vector_pos; try assumption.
  - rewrite !length_map. f_equal. f_equal.
    rewrite map_map. apply map_ext. intros q.
    rewrite score_row_unpadded; [|assumption|assumption|].
    + rewrite map_map. apply map_ext. intros p. apply maxsim_pad_query.
    + left. intros p p' Hp Hp'. now rewrite (Hplen p Hp), (Hplen p' Hp').
  - destruct qs; [contradiction|discriminate].
  - destruct ps; [contradiction|discriminate].
  - now apply tokens_give_positions.
Qed.

End Processor.

(** ** Device of the returned scores *)

(** C7. The scores of [score_multi_vector] are on the host whatever device
    computes them, but those of [score_single_vector] stay on the compute
    device: called with [device="cuda"], it returns a tensor on CUDA. *)
Theorem score_single_vector_stays_on_device :
  (exists scores,
      score_single_vector 2 CPU CPU Float32
        sample_query_vecs sample_passage_vecs (Some CUDA) = Ok scores
      /\ device scores = CUDA)
  /\ (exists scores,
      score_multi_vector 2 CPU CPU Float32
        sample_queries sample_passages 2 (Some CUDA) = Ok scores
      /\ device scores = CPU).
Proof.
  split; eexists; (split; [vm_compute; reflexivity|reflexivity]).
Qed.

(** ** Counterexamples *)

(** C3 as stated fails: with one query token opposed to every passage token
    and passages of 1 and 2 tokens, batch size 1 scores the first passage
    -1, while batch size 2 pads it with a zero vector that wins the maximum
    and scores it 0. *)
Lemma batch_size_changes_scores :
  score_multi_vector 1 CPU CPU Float32 opposed_query opposed_passages 1 None
  = Ok (mkTensor [1; 2] CPU Float32 [[-1; -1]]%Z)
  /\ score_multi_vector 1 CPU CPU Float32 opposed_query opposed_passages 2 None
     = Ok (mkTensor [1; 2] CPU Float32 [[0; -1]]%Z)
  /\ score_multi_vector 1 CPU CPU Float32 opposed_query opposed_passages 1 None
     <> score_multi_vector 1 CPU CPU Float32 opposed_query opposed_passages 2 None.
Proof.
  split; [reflexivity|]. split; [reflexivity|].
  vm_compute. discriminate.
Qed.

(** C6 as stated fails: for three queries and batch size 2 the value
    returned has two elements, the answer of the search for the first two
    queries and its answer for the third, not one ranked list per query. *)
Lemma get_topk_plaid_returns_one_element_per_batch :
  get_topk_plaid 2 CPU CPU Float32 sample_search sample_queries tt 5 2 None
  = Ok [ [[(2, 5)]; [(2, 5)]]; [[(1, 5)]] ]%Z
  /\ forall r,
       get_topk_plaid 2 CPU CPU Float32 sample_search sample_queries tt 5 2 None
       = Ok r ->
       length r <> length sample_queries.
Proof.
  split; [reflexivity|].
  intros r Hr. vm_compute in Hr. inversion Hr. subst r.
  simpl. discriminate.
Qed.

(** ** The theorems at the sample inputs *)

Lemma sample_passages_have_positions :
  has_positions (Z.to_nat 2) sample_passages.
Proof.
  intros j Hj. simpl in Hj.
  destruct j as [|[|j]]; [vm_compute; lia|vm_compute; lia|lia].
Defined.

Lemma score_multi_vector_maxsim_witness :
  exists scores,
    score_multi_vector 2 CPU CPU Float32 sample_queries sample_passages 2 None
    = Ok scores
    /\ shape scores = [3; 2]
    /\ forall i j, i < 3 -> j < 2 ->
         entry (data scores) i j
         = maxsim (padded 2 2 sample_queries i) (padded 2 2 sample_passages j).
Proof.
  apply (score_multi_vector_maxsim 2 CPU CPU Float32
           sample_queries sample_passages 2 None).
  - discriminate.
  - discriminate.
  - repeat constructor.
  - repeat constructor.
  - lia.
  - exact sample_passages_have_positions.
Defined.

Lemma score_single_vector_dot_witness :
  exists scores,
    score_single_vector 2 CPU CPU Float32
      sample_query_vecs sample_passage_vecs None = Ok scores
    /\ shape scores = [2; 3]
    /\ length (data scores) = 2
    /\ Forall (fun row => length row = 3) (data scores)
    /\ dtype scores = Float32
    /\ forall i j, i < 2 -> j < 3 ->
         entry (data scores) i j
         = dot (nth i sample_query_vecs []) (nth j sample_passage_vecs []).
Proof.
  apply (score_single_vector_dot 2 CPU CPU Float32
           sample_query_vecs sample_passage_vecs None).
  - discriminate.
  - discriminate.
  - repeat constructor.
  - repeat constructor.
Defined.

Lemma score_multi_vector_batch_invariant_witness :
  exists scores,
    score_multi_vector 2 CPU CPU Float32 sample_queries sample_passages 1 None
    = Ok scores
    /\ score_multi_vector 2 CPU CPU Float32 sample_queries sample_passages 2 None
       = Ok scores
    /\ forall i j, i < 3 -> j < 2 ->
         entry (data scores) i j
         = maxsim (nth i sample_queries []) (nth j sample_passages []).
Proof.
  apply (score_multi_vector_batch_invariant 2 CPU CPU Float32
           sample_queries sample_passages 1 2 None).
  - discriminate.
  - discriminate.
  - repeat constructor.
  - repeat constructor.
  - lia.
  - lia.
  - intros p Hp. in_cases Hp; discriminate.
  - right. intros q p Hq Hp qn Hqn.
    in_cases Hq; in_cases Hp; in_cases Hqn; vm_compute; discriminate.
Defined.

Lemma row_count_is_query_count_witness :
  (exists scores,
      score_single_vector 2 CPU CPU Float32
        sample_query_vecs sample_passage_vecs None = Ok scores
      /\ size scores 0 = 2 /\ length (data scores) = 2)
  /\ (exists scores,
      score_multi_vector 2 CPU CPU Float32
        sample_queries sample_passages 2 None = Ok scores
      /\ size scores 0 = 3 /\ length (data scores) = 3)
  /\ (forall n m,
      score_single_vector 2 CPU CPU Float32
        sample_query_vecs sample_passage_vecs None <> Err (AssertionError n m))
  /\ (forall n m,
      score_multi_vector 2 CPU CPU Float32
        sample_queries sample_passages 2 None <> Err (AssertionError n m)).
Proof.
  apply (row_count_is_query_count 2 CPU CPU Float32
           sample_query_vecs sample_passage_vecs
           sample_queries sample_passages 2 None).
  - discriminate.
  - discriminate.
  - repeat constructor.
  - repeat constructor.
  - discriminate.
  - discriminate.
  - repeat constructor.
  - repeat constructor.
  - lia.
  - exact sample_passages_have_positions.
Defined.

Lemma zero_query_rows_add_nothing_witness :
  (forall p : Mat, max_list (map (fun s => dot (repeat 0%Z 2) s) p) = 0%Z)
  /\ exists scores,
       score_multi_vector 2 CPU CPU Float32
         sample_queries sample_passages 2 None = Ok scores
       /\ (forall i j, i < 3 -> j < 2 ->
             entry (data scores) i j
             = maxsim (nth i sample_queries []) (padded 2 2 sample_passages j))
       /\ score_multi_vector 2 CPU CPU Float32
            sample_queries_extended sample_passages 2 None = Ok scores.
Proof.
  apply (zero_query_rows_add_nothing 2 CPU CPU Float32
           sample_queries sample_queries_extended sample_passages 2 None).
  - discriminate.
  - discriminate.
  - repeat constructor.
  - repeat constructor.
  - lia.
  - exact sample_passages_have_positions.
  - constructor; [now exists 1|].
    constructor; [now exists 0|].
    constructor; [now exists 0|]. constructor.
Defined.

Lemma nonpositive_batch_size_raises_witness :
  score_multi_vector 2 CPU CPU Float32 sample_queries sample_passages (-3) None
  = Err (RuntimeError "torch.cat(): expected a non-empty list of Tensors").
Proof.
  apply (nonpositive_batch_size_raises 2 CPU CPU Float32
           sample_queries sample_passages (-3) None).
  - discriminate.
  - discriminate.
  - lia.
Defined.

Lemma get_topk_plaid_per_batch_witness :
  get_topk_plaid 2 CPU CPU Float32 sample_search sample_queries tt 5 2 None
  = Ok (map (fun c =>
               sample_search tt
                 (mkTensor [length c; max_len c; 2] CPU Float32
                    (map (pad_to 2 (max_len c)) c)) 5%Z)
            (batches 2 sample_queries))
  /\ concat (batches 2 sample_queries) = sample_queries
  /\ Forall (fun c => 0 < length c <= 2) (batches 2 sample_queries).
Proof.
  apply (get_topk_plaid_per_batch 2 CPU CPU Float32 unit sample_search
           sample_queries tt 5 2 None).
  - discriminate.
  - repeat constructor.
  - lia.
Defined.

Lemma missing_backend_is_detected_at_call_witness :
  exists g,
    load_module false = Ok g
    /\ search_bound g = false
    /\ length (logged_info g) = 1
    /\ create_plaid_index 2 CPU CPU Float32 (fun _ : string => tt)
         (fun (i : unit) (_ : list (Tensor Mat)) => i) false g
         sample_passages None
       = Err (ImportError
                "FastPlaid is not installed. Please install it with `pip install fast-plaid`.")
    /\ is_Ok (score_single_vector 2 CPU CPU Float32
                sample_query_vecs sample_passage_vecs None)
    /\ is_Ok (score_multi_vector 2 CPU CPU Float32
                sample_queries sample_passages 2 None).
Proof.
  apply (missing_backend_is_detected_at_call 2 CPU CPU Float32 unit
           (fun _ : string => tt)
           (fun (i : unit) (_ : list (Tensor Mat)) => i)
           sample_query_vecs sample_passage_vecs
           sample_queries sample_passages sample_passages 2 None).
  - discriminate.
  - discriminate.
  - repeat constructor.
  - repeat constructor.
  - discriminate.
  - discriminate.
  - repeat constructor.
  - repeat constructor.
  - lia.
  - exact sample_passages_have_positions.
Defined.

(** ** The further theorems at the sample inputs *)

Lemma tokenless_passage_batch_raises_witness :
  score_multi_vector 2 CPU CPU Float32
    sample_queries tokenless_first_passages 1 None
  = Err (IndexError "max(): Expected reduction dim 3 to have non-zero size.").
Proof.
  apply (tokenless_passage_batch_raises 2 CPU CPU Float32
           sample_queries tokenless_first_passages 1 None 0).
  - discriminate.
  - discriminate.
  - repeat constructor.
  - repeat constructor.
  - lia.
  - simpl. lia.
  - reflexivity.
Defined.

Lemma score_multi_vector_returns_iff_witness :
  is_Ok (score_multi_vector 2 CPU CPU Float32
           sample_queries sample_passages 2 None)
  <-> sample_queries <> [] /\ sample_passages <> [] /\ (0 < 2)%Z
      /\ has_positions (Z.to_nat 2) sample_passages.
Proof.
  apply (score_multi_vector_returns_iff 2 CPU CPU Float32
           sample_queries sample_passages 2 None).
  - repeat constructor.
  - repeat constructor.
Defined.

Lemma score_multi_vector_result_layout_witness :
  score_multi_vector 2 CPU CPU Float32
    sample_queries sample_passages 2 (Some CUDA)
  = Ok (mkTensor [3; 2] CPU Float32 [[10; 2]; [1; 0]; [10; 5]]%Z)
  /\ device (mkTensor [3; 2] CPU Float32 [[10; 2]; [1; 0]; [10; 5]]%Z) = CPU
  /\ dtype (mkTensor [3; 2] CPU Float32 [[10; 2]; [1; 0]; [10; 5]]%Z) = Float32
  /\ shape (mkTensor [3; 2] CPU Float32 [[10; 2]; [1; 0]; [10; 5]]%Z) = [3; 2]
  /\ length (data (mkTensor [3; 2] CPU Float32 [[10; 2]; [1; 0]; [10; 5]]%Z)) = 3
  /\ Forall (fun row => length row = 2)
       (data (mkTensor [3; 2] CPU Float32 [[10; 2]; [1; 0]; [10; 5]]%Z)).
Proof.
  split; [reflexivity|].
  apply (score_multi_vector_result_layout 2 CPU CPU Float32
           sample_queries sample_passages 2 (Some CUDA)).
  - repeat constructor.
  - repeat constructor.
  - reflexivity.
Defined.

Lemma score_single_vector_result_device_witness :
  score_single_vector 2 CPU CPU Float32
    sample_query_vecs sample_passage_vecs (Some CUDA)
  = Ok (mkTensor [2; 3] CUDA Float32 [[3; -1; 0]; [7; -3; 2]]%Z)
  /\ device (mkTensor [2; 3] CUDA Float32 [[3; -1; 0]; [7; -3; 2]]%Z) = CUDA
  /\ dtype (mkTensor [2; 3] CUDA Float32 [[3; -1; 0]; [7; -3; 2]]%Z) = Float32.
Proof.
  split; [reflexivity|].
  apply (score_single_vector_result_device 2 CPU CPU Float32
           sample_query_vecs sample_passage_vecs (Some CUDA)).
  - repeat constructor.
  - repeat constructor.
  - reflexivity.
Defined.

Lemma padded_passage_maxima_are_clamped_witness :
  exists scores,
    score_multi_vector 2 CPU CPU Float32 sample_queries sample_passages 2 None
    = Ok scores
    /\ forall i j, i < 3 -> j < 2 ->
         nth j sample_passages [] <> [] ->
         entry (data scores) i j
         = if length (nth j sample_passages [])
              <? max_len (batch_of (Z.to_nat 2) sample_passages j)
           then clamped_maxsim (nth i sample_queries []) (nth j sample_passages [])
           else maxsim (nth i sample_queries []) (nth j sample_passages []).
Proof.
  apply (padded_passage_maxima_are_clamped 2 CPU CPU Float32
           sample_queries sample_passages 2 None).
  - discriminate.
  - discriminate.
  - repeat constructor.
  - repeat constructor.
  - lia.
  - exact sample_passages_have_positions.
Defined.

Lemma padding_never_lowers_a_score_witness :
  exists scores,
    score_multi_vector 2 CPU CPU Float32 sample_queries sample_passages 2 None
    = Ok scores
    /\ forall i j, i < 3 -> j < 2 ->
         nth j sample_passages [] <> [] ->
         (maxsim (nth i sample_queries []) (nth j sample_passages [])
          <= entry (data scores) i j)%Z
         /\ (length (nth j sample_passages [])
               < max_len (batch_of (Z.to_nat 2) sample_passages j) ->
             (0 <= entry (data scores) i j)%Z).
Proof.
  apply (padding_never_lowers_a_score 2 CPU CPU Float32
           sample_queries sample_passages 2 None).
  - discriminate.
  - discriminate.
  - repeat constructor.
  - repeat constructor.
  - lia.
  - exact sample_passages_have_positions.
Defined.

Lemma batch_size_beyond_passages_is_irrelevant_witness :
  score_multi_vector 2 CPU CPU Float32 sample_queries sample_passages 2 None
  = score_multi_vector 2 CPU CPU Float32 sample_queries sample_passages 128 None
  /\ (0 < max_len sample_passages ->
      score_multi_vector 2 CPU CPU Float32 sample_queries sample_passages 2 None
      = Ok (mkTensor [length sample_queries; length sample_passages]
              CPU Float32
              (map (fun q =>
                      map (fun p =>
                             maxsim q (pad_to 2 (max_len sample_passages) p))
                          sample_passages)
                   sample_queries))).
Proof.
  apply (batch_size_beyond_passages_is_irrelevant 2 CPU CPU Float32
           sample_queries sample_passages 2 128 None).
  - discriminate.
  - discriminate.
  - repeat constructor.
  - repeat constructor.
  - vm_compute. discriminate.
  - vm_compute. discriminate.
Defined.

Lemma query_scores_are_independent_witness :
  exists scores scores',
    score_multi_vector 2 CPU CPU Float32 sample_queries sample_passages 2 None
    = Ok scores
    /\ score_multi_vector 2 CPU CPU Float32 other_queries sample_passages 2 None
       = Ok scores'
    /\ nth 1 (data scores) [] = nth 2 (data scores') [].
Proof.
  apply (query_scores_are_independent 2 CPU CPU Float32
           sample_queries other_queries sample_passages 2 None 1 2).
  - discriminate.
  - discriminate.
  - discriminate.
  - repeat constructor.
  - repeat constructor.
  - repeat constructor.
  - lia.
  - exact sample_passages_have_positions.
  - simpl. lia.
  - simpl. lia.
  - reflexivity.
Defined.

Lemma scores_add_over_query_tokens_witness :
  exists s s1 s2,
    score_multi_vector 2 CPU CPU Float32
      [[[1; 2]]%Z ++ [[3; 4]]%Z] sample_passages 2 None = Ok s
    /\ score_multi_vector 2 CPU CPU Float32
         [[[1; 2]]%Z] sample_passages 2 None = Ok s1
    /\ score_multi_vector 2 CPU CPU Float32
         [[[3; 4]]%Z] sample_passages 2 None = Ok s2
    /\ forall j, j < length sample_passages ->
         entry (data s) 0 j
         = (entry (data s1) 0 j + entry (data s2) 0 j)%Z.
Proof.
  apply (scores_add_over_query_tokens 2 CPU CPU Float32
           [[1; 2]]%Z [[3; 4]]%Z sample_passages 2 None).
  - discriminate.
  - repeat constructor.
  - repeat constructor.
  - lia.
  - exact sample_passages_have_positions.
Defined.

Lemma tokenless_query_scores_zero_witness :
  exists scores,
    score_multi_vector 2 CPU CPU Float32
      tokenless_first_queries sample_passages 2 None = Ok scores
    /\ forall j, j < length sample_passages -> entry (data scores) 0 j = 0%Z.
Proof.
  apply (tokenless_query_scores_zero 2 CPU CPU Float32
           tokenless_first_queries sample_passages 2 None 0).
  - discriminate.
  - discriminate.
  - repeat constructor.
  - repeat constructor.
  - lia.
  - exact sample_passages_have_positions.
  - simpl. lia.
  - reflexivity.
Defined.

Lemma single_token_embeddings_score_as_vectors_witness :
  exists s m,
    score_single_vector 2 CPU CPU Float32
      sample_query_vecs sample_passage_vecs None = Ok s
    /\ score_multi_vector 2 CPU CPU Float32
         (map single_token sample_query_vecs)
         (map single_token sample_passage_vecs) 2 (Some CUDA) = Ok m
    /\ shape m = shape s
    /\ data m = data s.
Proof.
  apply (single_token_embeddings_score_as_vectors 2 CPU CPU Float32
           sample_query_vecs sample_passage_vecs 2 None (Some CUDA)).
  - discriminate.
  - discriminate.
  - repeat constructor.
  - repeat constructor.
  - lia.
Defined.

Lemma score_single_vector_transposes_witness :
  exists s t,
    score_single_vector 2 CPU CPU Float32
      sample_query_vecs sample_passage_vecs None = Ok s
    /\ score_single_vector 2 CPU CPU Float32
         sample_passage_vecs sample_query_vecs None = Ok t
    /\ shape t = rev (shape s)
    /\ forall i j, i < length sample_query_vecs ->
         j < length sample_passage_vecs ->
         entry (data s) i j = entry (data t) j i.
Proof.
  apply (score_single_vector_transposes 2 CPU CPU Float32
           sample_query_vecs sample_passage_vecs None).
  - discriminate.
  - discriminate.
  - repeat constructor.
  - repeat constructor.
Defined.

Lemma get_topk_plaid_nonpositive_batch_witness :
  get_topk_plaid 2 CPU CPU Float32 sample_search sample_queries tt 5 (-3) None
  = Ok [].
Proof.
  apply (get_topk_plaid_nonpositive_batch 2 CPU CPU Float32 unit sample_search
           sample_queries tt 5 (-3) None).
  - discriminate.
  - repeat constructor.
  - lia.
Defined.

Lemma get_topk_plaid_joined_witness :
  exists r,
    get_topk_plaid 2 CPU CPU Float32 sample_search sample_queries tt 5 2 None
    = Ok r
    /\ length r = (length sample_queries + Z.to_nat 2 - 1) / Z.to_nat 2
    /\ length (concat r) = length sample_queries
    /\ forall i, i < length sample_queries ->
         nth i (concat r) []
         = (fun (k : Z) (q : Mat) => [(Z.of_nat (length q), k)]) 5%Z
             (padded 2 (Z.to_nat 2) sample_queries i).
Proof.
  apply (get_topk_plaid_joined 2 CPU CPU Float32 unit sample_search
           sample_queries tt 5 2 None
           (fun (k : Z) (q : Mat) => [(Z.of_nat (length q), k)])).
  - discriminate.
  - repeat constructor.
  - lia.
  - intros t k. reflexivity.
Defined.

Lemma create_plaid_index_hands_over_each_passage_witness :
  exists g tensors,
    load_module true = Ok g
    /\ create_plaid_index 2 CPU CPU Float32 (fun _ : string => 0)
         (fun (i : nat) (ts : list (Tensor Mat)) => i + length ts)
         true g sample_passages None
       = Ok (0 + length tensors)
    /\ length tensors = length sample_passages
    /\ map (@data Mat) tensors = sample_passages
    /\ Forall (fun t => shape t = [length (data t); 2]
                        /\ dtype t = Float32
                        /\ device t = device_or_auto CPU None) tensors.
Proof.
  apply (create_plaid_index_hands_over_each_passage 2 CPU CPU Float32 nat
           (fun _ : string => 0)
           (fun (i : nat) (ts : list (Tensor Mat)) => i + length ts)
           sample_passages None).
  repeat constructor.
Defined.

Lemma prepadded_lists_score_as_one_batch_witness :
  score_multi_vector 2 CPU CPU Float32
    (map (pad_to 2 (max_len sample_queries)) sample_queries)
    (map (pad_to 2 (max_len sample_passages)) sample_passages) 1 None
  = score_multi_vector 2 CPU CPU Float32 sample_queries sample_passages 2 None.
Proof.
  apply (prepadded_lists_score_as_one_batch 2 CPU CPU Float32
           sample_queries sample_passages 1 2 None).
  - discriminate.
  - discriminate.
  - repeat constructor.
  - repeat constructor.
  - lia.
  - vm_compute. discriminate.
  - vm_compute. lia.
Defined.
